(** * Discovery: peer replication node and client resolver loop

    A shallow embedding of [registry/node.go] (the peer node that forwards
    instance mutations to another discovery server) and of the [naming]
    client (self-registration, watch/fetch, long polling, broadcast and the
    node shuffle), together with the properties of the specification that
    are stated about them.

    Conventions of the embedding:
    - Go [int], [int64] and [uint32] values are [Z]; none of the modelled
      code does arithmetic that could wrap, apart from the loop counters
      that are treated where they occur.
    - Go maps are stdpp [gmap]s; a nil map and an empty map are both [∅]
      (they agree on [len], lookup, [range] and [delete], the only
      operations the code applies to maps it did not create), except for
      the metadata of an instance, where the code tells nil from empty and
      nil is [None].
    - [url.Values] is a [gmap string (list string)].
    - HTTP is the environment: every function that performs a request takes
      the reply as an argument and returns the requests it sent. *)

From stdpp Require Import gmap strings list fin_maps pretty.

Local Open Scope string_scope.
Local Open Scope Z_scope.

(** ** Errors *)

(** Modelled from the spec: package [errors] (the error-code module) is not
    part of the sources.  [errors.Int] wraps a wire code, two codes are
    [Equal] when the integers are, and the named kinds have the wire codes
    of the specification's table: 0 OK, -304 NotModified, -404 NothingFound,
    -409 Conflict.  The other constructors are the remaining Go [error]
    values the modelled code passes around. *)
Inductive error : Type :=
  | ECode (code : Z)
  | ETransport (msg : string)
  | EDuplication.

#[global] Instance error_eq_dec : EqDecision error.
Proof. solve_decision. Defined.

Module errors.
Definition Int (code : Z) : error := ECode code.
Definition OK : error := Int 0.
Definition NotModified : error := Int (-304).
Definition NothingFound : error := Int (-404).
Definition Conflict : error := Int (-409).
(** [ec.Equal(e)]: comparison of the wire codes. *)
Definition Equal (a b : error) : bool :=
  match a, b with
  | ECode x, ECode y => bool_decide (x = y)
  | _, _ => false
  end.
End errors.

(** ** HTTP requests *)

Abbreviation Values := (gmap string (list string)).

Module url.
(** [Values.Set]: the key now holds exactly this value. *)
Definition Set_ (k v : string) (p : Values) : Values := <[k := [v]]> p.
(** [Values.Add]: the value is appended to those of the key. *)
Definition Add (k v : string) (p : Values) : Values :=
  <[k := (default [] (p !! k) ++ [v])%list]> p.
(** [Values.Get]: the first value of the key, if any. *)
Definition Get (k : string) (p : Values) : option string :=
  p !! k ≫= head.
End url.

Inductive method := GET | POST.

Record request := Request {
  req_method : method;
  req_uri : string;
  req_params : Values
}.

(** [strconv.FormatInt(x, 10)] and [strconv.FormatUint(x, 10)]. *)
Definition FormatInt (x : Z) : string := pretty x.

(** ** Package model *)

Module model.
(** Modelled from the spec: the declarations of package [model] are not
    part of the sources.  [Instance] has the attributes the specification
    lists; [Action] has the three values [call] switches on, any other
    value being [OtherAction]. *)
Record Instance := {
  Zone : string;
  Env : string;
  AppID : string;
  Hostname : string;
  Addrs : list string;
  Color : string;
  Version : string;
  Status : Z;
  Metadata : option (gmap string string);
  RegTimestamp : Z;
  DirtyTimestamp : Z;
  LatestTimestamp : Z
}.

Inductive Action := Register | Renew | Cancel | OtherAction (a : Z).

Inductive NodeStatus := NodeStatusUP | NodeStatusLost.
End model.

(** ** registry/node.go *)

Module registry.

Definition _registerURL := "/discovery/register".
Definition _cancelURL := "/discovery/cancel".
Definition _renewURL := "/discovery/renew".
Definition _setURL := "/discovery/set".

(** The [Node] struct, without its configuration and HTTP client (the
    client is the environment). *)
Record Node := {
  pRegisterURL : string;
  registerURL : string;
  cancelURL : string;
  renewURL : string;
  setURL : string;
  addr : string;
  status : model.NodeStatus;
  zone : string;
  otherZone : bool
}.

Definition newNode (addr : string) : Node :=
  {| pRegisterURL := "";
     registerURL := "http://" +:+ addr +:+ _registerURL;
     cancelURL := "http://" +:+ addr +:+ _cancelURL;
     renewURL := "http://" +:+ addr +:+ _renewURL;
     setURL := "http://" +:+ addr +:+ _setURL;
     addr := addr;
     status := model.NodeStatusLost;
     zone := "";
     otherZone := false |}.

(** What [client.Post] did: a transport error, or a decoded reply
    [{code, data}]. *)
Inductive PostReply :=
  | PostErr (e : error)
  | PostRes (Code : Z) (Data : string).

(** What a call leaves behind: the requests sent to the peer, the error
    returned, and the contents of the record [data] points to ([None] when
    the pointer is nil). *)
Record Outcome (T : Type) := {
  sent : list request;
  err : option error;
  data_out : option T
}.
Arguments sent {T} _.
Arguments err {T} _.
Arguments data_out {T} _.

Section Call.
(** [json.Marshal] on the metadata map and [json.Unmarshal] into a record
    of type [T]: the new contents of the record, given the old ones (it
    may fill the record partly, and its error is discarded). *)
Context {T : Type}.
Variable json_Marshal : option (gmap string string) → string.
Variable json_Unmarshal : string → T → T.

Definition action_params (action : model.Action) (i : model.Instance)
    (params : Values) : Values :=
  match action with
  | model.Register =>
      let params := url.Set_ "addrs" (String.concat "," (model.Addrs i)) params in
      let params := url.Set_ "status" (FormatInt (model.Status i)) params in
      let params := url.Set_ "color" (model.Color i) params in
      let params := url.Set_ "version" (model.Version i) params in
      let meta := json_Marshal (model.Metadata i) in
      let params := url.Set_ "metadata" meta params in
      let params := url.Set_ "reg_timestamp" (FormatInt (model.RegTimestamp i)) params in
      let params := url.Set_ "dirty_timestamp" (FormatInt (model.DirtyTimestamp i)) params in
      url.Set_ "latest_timestamp" (FormatInt (model.LatestTimestamp i)) params
  | model.Renew =>
      url.Set_ "dirty_timestamp" (FormatInt (model.DirtyTimestamp i)) params
  | model.Cancel =>
      url.Set_ "latest_timestamp" (FormatInt (model.LatestTimestamp i)) params
  | model.OtherAction _ => params
  end.

(** The form [call] builds before it posts. *)
Definition call_params (n : Node) (action : model.Action)
    (i : model.Instance) : Values :=
  let params : Values := ∅ in
  let params := url.Set_ "zone" (model.Zone i) params in
  let params := url.Set_ "env" (model.Env i) params in
  let params := url.Set_ "appid" (model.AppID i) params in
  let params := url.Set_ "hostname" (model.Hostname i) params in
  let params :=
    if otherZone n then url.Set_ "replication" "false" params
    else url.Set_ "replication" "true" params in
  action_params action i params.

Definition call (n : Node) (action : model.Action) (i : model.Instance)
    (uri : string) (data : option T) (reply : PostReply) : Outcome T :=
  let rq := Request POST uri (call_params n action i) in
  match reply with
  | PostErr e => {| sent := [rq]; err := Some e; data_out := data |}
  | PostRes Code Data =>
      if bool_decide (Code ≠ 0) then
        let e := errors.Int Code in
        if bool_decide (e = errors.Conflict) then
          {| sent := [rq]; err := Some e;
             data_out := json_Unmarshal Data <$> data |}
        else {| sent := [rq]; err := Some e; data_out := data |}
      else {| sent := [rq]; err := None; data_out := data |}
  end.

(** [Register] and [Cancel] forward through [call] with a nil [data]. *)
Definition Register (n : Node) (i : model.Instance) (reply : PostReply)
    : Outcome T :=
  call n model.Register i (registerURL n) None reply.

Definition Cancel (n : Node) (i : model.Instance) (reply : PostReply)
    : Outcome T :=
  call n model.Cancel i (cancelURL n) None reply.

(** [Renew] has an empty body: it returns its zero [err] and never
    reaches [call], whatever the peer would have replied. *)
Definition Renew (n : Node) (i : model.Instance) (reply : PostReply)
    : Outcome T :=
  {| sent := []; err := None; data_out := None |}.

End Call.

End registry.

(** ** The naming client *)

(** Results of code that may panic.  [OutOfFuel] is the model's own: a loop
    whose bound was too small to reach its exit. *)
Inductive res (A : Type) : Type :=
  | Ok (a : A)
  | Panic (msg : string)
  | OutOfFuel.
Arguments Ok {A} _.
Arguments Panic {A} _.
Arguments OutOfFuel {A}.

#[global] Instance res_bind : MBind res := λ A B k m,
  match m with
  | Ok a => k a
  | Panic msg => Panic msg
  | OutOfFuel => OutOfFuel
  end.

(** What the HTTP client did with a request whose reply body decodes to
    [R]: a transport error, or a reply [{code, ...}]. *)
Inductive Reply (R : Type) : Type :=
  | NetErr (e : error)
  | Res (Code : Z) (body : R).
Arguments NetErr {R} _.
Arguments Res {R} _ _.

(** A buffered channel of [struct{}]: how many values wait in it, how many
    it holds at most, and whether it was closed. *)
Record chan := {
  buffered : nat;
  capacity : nat;
  closed : bool
}.

Module naming.

(** The declaration of [naming.Instance] is not part of the sources; the
    client reads the attributes [AppID], [Addrs], [Color], [Version] and
    [Metadata] of it, which the specification's one [Instance] has. *)
Abbreviation Instance := model.Instance.

Definition _registerURL (domain : string) := "http://" +:+ domain +:+ "/discovery/register".
Definition _cancelURL (domain : string) := "http://" +:+ domain +:+ "/discovery/cancel".
Definition _renewURL (domain : string) := "http://" +:+ domain +:+ "/discovery/renew".
Definition _pollURL (host : string) := "http://" +:+ host +:+ "/discovery/polls".
Definition _nodesURL (domain : string) := "http://" +:+ domain +:+ "/discovery/nodes".
Definition _statusUP := "1".

Record Config := {
  Domain : string;
  Zone : string;
  Env : string;
  Host : string
}.

Record appData := {
  ZoneInstances : gmap string (list Instance);
  LastTs : Z
}.

(** [event] is the identity of the event channel (its index in the
    client's channel store); [zoneIns] is the [atomic.Value], [None] while
    nothing was stored in it. *)
Record appInfo := {
  event : nat;
  zoneIns : option (gmap string (list Instance));
  lastTs : Z
}.

(** The [Discovery] struct and what its fields point to.
    - [once]: the [sync.Once] has fired, the server loop is running;
    - [ctx_done]: the root context [ctx] was cancelled by [cancelFunc];
    - [cancelPolls]: the child context that function cancels, if not nil;
    - [delete_ch]: the values waiting in the [delete] channel, oldest first;
    - [chans]: the event channels made so far, by identity;
    - [next_ctx], [canceled]: the child contexts made so far are those below
      [next_ctx], and [canceled] are the ones whose cancel function ran;
    - [renewals]: the renew tasks [Register] started, with their context. *)
Record Discovery := {
  c : Config;
  once : bool;
  ctx_done : bool;
  apps : gmap string appInfo;
  registry : gset string;
  lastHost : string;
  cancelPolls : option nat;
  delete_ch : list appInfo;
  chans : list chan;
  next_ctx : nat;
  canceled : gset nat;
  renewals : list (nat * Instance)
}.

Definition set_c (x : Config) (d : Discovery) : Discovery :=
  {| c := x; once := once d; ctx_done := ctx_done d; apps := apps d;
     registry := registry d; lastHost := lastHost d;
     cancelPolls := cancelPolls d; delete_ch := delete_ch d;
     chans := chans d; next_ctx := next_ctx d; canceled := canceled d;
     renewals := renewals d |}.

Definition set_once (x : bool) (d : Discovery) : Discovery :=
  {| c := c d; once := x; ctx_done := ctx_done d; apps := apps d;
     registry := registry d; lastHost := lastHost d;
     cancelPolls := cancelPolls d; delete_ch := delete_ch d;
     chans := chans d; next_ctx := next_ctx d; canceled := canceled d;
     renewals := renewals d |}.

Definition set_ctx_done (x : bool) (d : Discovery) : Discovery :=
  {| c := c d; once := once d; ctx_done := x; apps := apps d;
     registry := registry d; lastHost := lastHost d;
     cancelPolls := cancelPolls d; delete_ch := delete_ch d;
     chans := chans d; next_ctx := next_ctx d; canceled := canceled d;
     renewals := renewals d |}.

Definition set_apps (x : gmap string appInfo) (d : Discovery) : Discovery :=
  {| c := c d; once := once d; ctx_done := ctx_done d; apps := x;
     registry := registry d; lastHost := lastHost d;
     cancelPolls := cancelPolls d; delete_ch := delete_ch d;
     chans := chans d; next_ctx := next_ctx d; canceled := canceled d;
     renewals := renewals d |}.

Definition set_registry (x : gset string) (d : Discovery) : Discovery :=
  {| c := c d; once := once d; ctx_done := ctx_done d; apps := apps d;
     registry := x; lastHost := lastHost d;
     cancelPolls := cancelPolls d; delete_ch := delete_ch d;
     chans := chans d; next_ctx := next_ctx d; canceled := canceled d;
     renewals := renewals d |}.

Definition set_lastHost (x : string) (d : Discovery) : Discovery :=
  {| c := c d; once := once d; ctx_done := ctx_done d; apps := apps d;
     registry := registry d; lastHost := x;
     cancelPolls := cancelPolls d; delete_ch := delete_ch d;
     chans := chans d; next_ctx := next_ctx d; canceled := canceled d;
     renewals := renewals d |}.

Definition set_cancelPolls (x : option nat) (d : Discovery) : Discovery :=
  {| c := c d; once := once d; ctx_done := ctx_done d; apps := apps d;
     registry := registry d; lastHost := lastHost d;
     cancelPolls := x; delete_ch := delete_ch d;
     chans := chans d; next_ctx := next_ctx d; canceled := canceled d;
     renewals := renewals d |}.

Definition set_delete_ch (x : list appInfo) (d : Discovery) : Discovery :=
  {| c := c d; once := once d; ctx_done := ctx_done d; apps := apps d;
     registry := registry d; lastHost := lastHost d;
     cancelPolls := cancelPolls d; delete_ch := x;
     chans := chans d; next_ctx := next_ctx d; canceled := canceled d;
     renewals := renewals d |}.

Definition set_chans (x : list chan) (d : Discovery) : Discovery :=
  {| c := c d; once := once d; ctx_done := ctx_done d; apps := apps d;
     registry := registry d; lastHost := lastHost d;
     cancelPolls := cancelPolls d; delete_ch := delete_ch d;
     chans := x; next_ctx := next_ctx d; canceled := canceled d;
     renewals := renewals d |}.

Definition set_next_ctx (x : nat) (d : Discovery) : Discovery :=
  {| c := c d; once := once d; ctx_done := ctx_done d; apps := apps d;
     registry := registry d; lastHost := lastHost d;
     cancelPolls := cancelPolls d; delete_ch := delete_ch d;
     chans := chans d; next_ctx := x; canceled := canceled d;
     renewals := renewals d |}.

Definition set_canceled (x : gset nat) (d : Discovery) : Discovery :=
  {| c := c d; once := once d; ctx_done := ctx_done d; apps := apps d;
     registry := registry d; lastHost := lastHost d;
     cancelPolls := cancelPolls d; delete_ch := delete_ch d;
     chans := chans d; next_ctx := next_ctx d; canceled := x;
     renewals := renewals d |}.

Definition set_renewals (x : list (nat * Instance)) (d : Discovery) : Discovery :=
  {| c := c d; once := once d; ctx_done := ctx_done d; apps := apps d;
     registry := registry d; lastHost := lastHost d;
     cancelPolls := cancelPolls d; delete_ch := delete_ch d;
     chans := chans d; next_ctx := next_ctx d; canceled := canceled d;
     renewals := x |}.

(** [context.WithCancel(d.ctx)]: a fresh child of the root context. *)
Definition WithCancel (d : Discovery) : nat * Discovery :=
  (next_ctx d, set_next_ctx (S (next_ctx d)) d).

(** Calling the cancel function of child [k]. *)
Definition cancel_ctx (k : nat) (d : Discovery) : Discovery :=
  set_canceled ({[k]} ∪ canceled d) d.

(** [ctx.Err() == context.Canceled] for child [k]: it was cancelled itself
    or through the root context. *)
Definition ctx_Err (d : Discovery) (k : nat) : bool :=
  ctx_done d || bool_decide (k ∈ canceled d).

(** [make(chan struct{}, n)]. *)
Definition make_chan (n : nat) (d : Discovery) : nat * Discovery :=
  (length (chans d),
   set_chans (chans d ++ [{| buffered := 0; capacity := n; closed := false |}])%list d).

(** [select { case ch <- struct{}{}: default: }]: the value is dropped when
    the buffer is full.  (No event channel is closed while its [appInfo] is
    still in [apps], so the send on a closed channel does not arise.) *)
Definition try_send (ch : nat) (d : Discovery) : Discovery :=
  match chans d !! ch with
  | Some k =>
      if bool_decide (buffered k < capacity k)%nat then
        set_chans (<[ch := {| buffered := S (buffered k); capacity := capacity k;
                              closed := closed k |}]> (chans d)) d
      else d
  | None => d
  end.

(** [close(ch)]: panics on a channel that is closed already. *)
Definition close_chan (ch : nat) (d : Discovery) : res Discovery :=
  match chans d !! ch with
  | Some k =>
      if closed k then Panic "close of closed channel"
      else Ok (set_chans (<[ch := {| buffered := buffered k; capacity := capacity k;
                                     closed := true |}]> (chans d)) d)
  | None => Panic "close of nil channel"
  end.

(** What a function of the client leaves behind: its results, the client
    afterwards and the requests it sent. *)
Record Effect (A : Type) := {
  ret : A;
  after : Discovery;
  sent : list request
}.
Arguments ret {A} _.
Arguments after {A} _.
Arguments sent {A} _.

Section Client.

(** The environment of the client: the process environment read by
    [fixConfig], [json.Marshal] on a metadata map, and the order in which
    [range] visits a map.  Go leaves that order unspecified; all that is
    known is that every entry is visited once. *)
Variable os_Getenv : string → string.
Variable os_Hostname : string.
Variable json_Marshal : option (gmap string string) → string.
Variable range : ∀ A : Type, gmap string A → list (string * A).
Hypothesis range_perm : ∀ (A : Type) (m : gmap string A), range A m ≡ₚ map_to_list m.

(** [ecode.ServerErr]: a server-side error code of the missing error-code
    module, whose wire code the specification does not fix. *)
Variable ServerErrCode : Z.

Definition ServerErr : error := errors.Int ServerErrCode.

Definition fixConfig (cfg : Config) : Config :=
  let zone := if bool_decide (Zone cfg = "") then os_Getenv "ZONE" else Zone cfg in
  let env := if bool_decide (Env cfg = "") then os_Getenv "DEPLOY_ENV" else Env cfg in
  let host := if bool_decide (Host cfg = "") then os_Hostname else Host cfg in
  {| Domain := Domain cfg; Zone := zone; Env := env; Host := host |}.

Definition New (cfg : Config) : Discovery :=
  {| c := fixConfig cfg; once := false; ctx_done := false; apps := ∅;
     registry := ∅; lastHost := ""; cancelPolls := None; delete_ch := [];
     chans := []; next_ctx := 0; canceled := ∅; renewals := [] |}.

(** [Fetch]: the pair [(ins, ok)]; [ins] is the nil map when [ok] is
    false. *)
Definition Fetch (d : Discovery) (appID : string)
    : gmap string (list Instance) * bool :=
  match apps d !! appID with
  | Some app =>
      match zoneIns app with
      | Some ins => (ins, true)
      | None => (∅, false)
      end
  | None => (∅, false)
  end.

(** [Unwatch], at the moment its send on the [delete] channel completes
    (the send waits while ten values are pending). *)
Definition Unwatch (d : Discovery) (appID : string) : Discovery :=
  match apps d !! appID with
  | Some app =>
      let d := set_apps (delete appID (apps d)) d in
      set_delete_ch (delete_ch d ++ [app])%list d
  | None => d
  end.

(** [Watch]: the event channel returned, and the client afterwards.
    [once.Do] starts the server loop the first time. *)
Definition Watch (d : Discovery) (appID : string) : nat * Discovery :=
  match apps d !! appID with
  | Some app => (event app, set_once true d)
  | None =>
      let '(ev, d) := make_chan 1 d in
      let app := {| event := ev; zoneIns := None; lastTs := 0 |} in
      let d := set_apps (<[appID := app]> (apps d)) d in
      let cancel := cancelPolls d in
      let d := match cancel with
               | Some k => cancel_ctx k d
               | None => d
               end in
      (event app, set_once true d)
  end.

Definition Reload (d : Discovery) (cfg : Config) : Discovery :=
  set_c (fixConfig cfg) d.

Definition Close (d : Discovery) : Discovery := set_ctx_done true d.

Definition Scheme : string := "discovery".

Definition newParams (cfg : Config) : Values :=
  let params : Values := ∅ in
  let params := url.Set_ "zone" (Zone cfg) params in
  let params := url.Set_ "env" (Env cfg) params in
  url.Set_ "hostname" (Host cfg) params.

(** [register]: one POST to [/discovery/register]; the reply body is the
    message. *)
Definition register (d : Discovery) (ins : Instance) (reply : Reply string)
    : Effect (option error) :=
  let cfg := c d in
  let metadata :=
    match model.Metadata ins with
    | Some _ => json_Marshal (model.Metadata ins)
    | None => ""
    end in
  let uri := _registerURL (Domain cfg) in
  let params := newParams cfg in
  let params := url.Set_ "appid" (model.AppID ins) params in
  let params := url.Set_ "addrs" (String.concat "," (model.Addrs ins)) params in
  let params := url.Set_ "color" (model.Color ins) params in
  let params := url.Set_ "version" (model.Version ins) params in
  let params := url.Set_ "status" _statusUP params in
  let params := url.Set_ "metadata" metadata params in
  let rq := Request POST uri params in
  match reply with
  | NetErr e => {| ret := Some e; after := d; sent := [rq] |}
  | Res Code _ =>
      let ec := errors.Int Code in
      if negb (errors.Equal ec errors.OK)
      then {| ret := Some ec; after := d; sent := [rq] |}
      else {| ret := None; after := d; sent := [rq] |}
  end.

(** [Register]: the cancel function (the context it cancels) and the error.
    The renew task it starts is recorded in [renewals]. *)
Definition Register (d : Discovery) (ins : Instance) (reply : Reply string)
    : Effect (option nat * option error) :=
  if bool_decide (model.AppID ins ∈ registry d) then
    {| ret := (None, Some EDuplication); after := d; sent := [] |}
  else
    let d := set_registry ({[model.AppID ins]} ∪ registry d) d in
    let '(ctx, d) := WithCancel d in
    let r := register d ins reply in
    match ret r with
    | Some e =>
        let d := after r in
        let d := set_registry (registry d ∖ {[model.AppID ins]}) d in
        let d := cancel_ctx ctx d in
        {| ret := (None, Some e); after := d; sent := sent r |}
    | None =>
        let d := after r in
        let d := set_renewals ((ctx, ins) :: renewals d) d in
        {| ret := (Some ctx, None); after := d; sent := sent r |}
    end.

(** [nodes]: one GET to [/discovery/nodes]; nil unless the reply is OK and
    lists at least one address. *)
Definition nodes (d : Discovery) (reply : Reply (list string))
    : Effect (list string) :=
  let cfg := c d in
  let uri := _nodesURL (Domain cfg) in
  let rq := Request GET uri ∅ in
  match reply with
  | NetErr _ => {| ret := []; after := d; sent := [rq] |}
  | Res Code Data =>
      if negb (errors.Equal (errors.Int Code) errors.OK)
      then {| ret := []; after := d; sent := [rq] |}
      else if bool_decide (length Data = 0%nat)
      then {| ret := []; after := d; sent := [rq] |}
      else {| ret := Data; after := d; sent := [rq] |}
  end.

(** The first loop of [polls], one entry of [d.apps] at a time: the
    baseline is reset when the host changed, and the id and the baseline
    are appended to the two slices. *)
Definition polls_visit (changed : bool)
    (acc : gmap string appInfo * list string * list Z) (kv : string * appInfo)
    : gmap string appInfo * list string * list Z :=
  let '(m, appIDs, lastTss) := acc in
  let '(k, v) := kv in
  let v := if changed
           then {| event := event v; zoneIns := zoneIns v; lastTs := 0 |}
           else v in
  (<[k := v]> m, (appIDs ++ [k])%list, (lastTss ++ [lastTs v])%list).

(** The loop over [res.Data] that looks for a zero [LastTs]. *)
Fixpoint has_zero_LastTs (l : list (string * appData)) : bool :=
  match l with
  | [] => false
  | (_, app) :: l => if bool_decide (LastTs app = 0) then true else has_zero_LastTs l
  end.

Definition polls_params (cfg : Config) (appIDs : list string) (lastTss : list Z)
    : Values :=
  let params : Values := ∅ in
  let params := url.Set_ "env" (Env cfg) params in
  let params := url.Set_ "hostname" (Host cfg) params in
  let params := foldl (λ p appid, url.Add "appid" appid p) params appIDs in
  foldl (λ p ts, url.Add "latest_timestamp" (FormatInt ts) p) params lastTss.

(** [polls]: the pair [(apps, err)]; [apps] is the nil map unless the poll
    delivered data. *)
Definition polls (d : Discovery) (host : string)
    (reply : Reply (gmap string appData))
    : Effect (gmap string appData * option error) :=
  let changed := bool_decide (host ≠ lastHost d) in
  let d := if changed then set_lastHost host d else d in
  let cfg := c d in
  let '(m, appIDs, lastTss) :=
    foldl (polls_visit changed) (apps d, [], []) (range _ (apps d)) in
  let d := set_apps m d in
  if bool_decide (length appIDs = 0%nat) then
    {| ret := (∅, None); after := d; sent := [] |}
  else
    let uri := _pollURL host in
    let rq := Request GET uri (polls_params cfg appIDs lastTss) in
    match reply with
    | NetErr e => {| ret := (∅, Some e); after := d; sent := [rq] |}
    | Res Code Data =>
        let ec := errors.Int Code in
        if negb (errors.Equal ec errors.OK) then
          if negb (errors.Equal ec errors.NotModified)
          then {| ret := (∅, Some ec); after := d; sent := [rq] |}
          else {| ret := (∅, None); after := d; sent := [rq] |}
        else if has_zero_LastTs (range _ Data)
        then {| ret := (∅, Some ServerErr); after := d; sent := [rq] |}
        else {| ret := (Data, None); after := d; sent := [rq] |}
    end.

(** The inner loop of [broadcast], one zone at a time: an empty zone is
    deleted from the map, and the instances are counted. *)
Definition prune_visit (acc : gmap string (list Instance) * Z)
    (kv : string * list Instance) : gmap string (list Instance) * Z :=
  let '(m, count) := acc in
  let '(zone, ins) := kv in
  let m := if bool_decide (length ins = 0%nat) then delete zone m else m in
  (m, count + Z.of_nat (length ins)).

(** The body of the outer loop of [broadcast]. *)
Definition broadcast_visit (d : Discovery) (kv : string * appData) : Discovery :=
  let '(appID, v) := kv in
  let '(zoneInstances, count) :=
    foldl prune_visit (ZoneInstances v, 0) (range _ (ZoneInstances v)) in
  if bool_decide (count = 0) then d
  else
    match apps d !! appID with
    | Some app =>
        let app := {| event := event app; zoneIns := Some zoneInstances;
                      lastTs := LastTs v |} in
        let d := set_apps (<[appID := app]> (apps d)) d in
        try_send (event app) d
    | None => d
    end.

Definition broadcast (d : Discovery) (apps : gmap string appData) : Discovery :=
  foldl broadcast_visit d (range _ apps).

(** *** shuffle *)

(** The package-level generator [r]: its state, and the two draws the
    shuffle makes.  [rand.Int63n] and [rand.Int31n] panic unless their
    argument is positive, and return a number below it. *)
Variable rng : Type.
Variable Int63n : Z → rng → Z * rng.
Variable Int31n : Z → rng → Z * rng.
Hypothesis Int63n_range : ∀ n g, 0 < n → 0 ≤ (Int63n n g).1 < n.
Hypothesis Int31n_range : ∀ n g, 0 < n → 0 ≤ (Int31n n g).1 < n.

Definition rand_Int63n (n : Z) (g : rng) : res (Z * rng) :=
  if bool_decide (n ≤ 0) then Panic "invalid argument to Int63n" else Ok (Int63n n g).

Definition rand_Int31n (n : Z) (g : rng) : res (Z * rng) :=
  if bool_decide (n ≤ 0) then Panic "invalid argument to Int31n" else Ok (Int31n n g).

(** The conversion [int32(x)] of a 64-bit [int]: the low 32 bits, signed. *)
Definition int32 (x : Z) : Z := (x + 2 ^ 31) `mod` 2 ^ 32 - 2 ^ 31.

Section Shuffle.
(** [swap] acts on whatever the closure captured, here a state [St]; it may
    panic. *)
Context {St : Type}.
Variable swap : Z → Z → St → res St.

(** [for ; i > 1<<31-1-1; i-- { j := int(r.Int63n(int64(i + 1))); swap(i, j) }],
    which yields the [i] it stopped at. *)
Fixpoint shuffle_loop63 (fuel : nat) (i : Z) (g : rng) (s : St) : res (Z * rng * St) :=
  if bool_decide (i > 2 ^ 31 - 1 - 1) then
    match fuel with
    | O => OutOfFuel
    | S fuel =>
        '(j, g) ← rand_Int63n (i + 1) g;
        s ← swap i j s;
        shuffle_loop63 fuel (i - 1) g s
    end
  else Ok (i, g, s).

(** [for ; i > 0; i-- { j := int(r.Int31n(int32(i + 1))); swap(i, j) }]. *)
Fixpoint shuffle_loop31 (fuel : nat) (i : Z) (g : rng) (s : St) : res (Z * rng * St) :=
  if bool_decide (i > 0) then
    match fuel with
    | O => OutOfFuel
    | S fuel =>
        '(j, g) ← rand_Int31n (int32 (i + 1)) g;
        s ← swap i j s;
        shuffle_loop31 fuel (i - 1) g s
    end
  else Ok (i, g, s).

(** [shuffle(n, swap)]; the two loops run at most [n] times together. *)
Definition shuffle (n : Z) (g : rng) (s : St) : res (rng * St) :=
  if bool_decide (n < 0) then Panic "invalid argument to Shuffle"
  else
    let i := n - 1 in
    '(i, g, s) ← shuffle_loop63 (Z.to_nat n) i g s;
    '(_, g, s) ← shuffle_loop31 (Z.to_nat n) i g s;
    Ok (g, s).

End Shuffle.

(** The closure the server loop passes:
    [nodes[i], nodes[j] = nodes[j], nodes[i]], which panics when an index is
    out of range. *)
Definition swap_nodes (i j : Z) (nodes : list string) : res (list string) :=
  if bool_decide (0 ≤ i) && bool_decide (0 ≤ j) then
    match nodes !! Z.to_nat i, nodes !! Z.to_nat j with
    | Some a, Some b => Ok (<[Z.to_nat i := b]> (<[Z.to_nat j := a]> nodes))
    | _, _ => Panic "index out of range"
    end
  else Panic "index out of range".

(** The swap that only records the indices it is called with. *)
Definition swap_log (i j : Z) (log : list (Z * Z)) : res (list (Z * Z)) :=
  Ok (log ++ [(i, j)])%list.

(** *** The server loop *)

(** The local variables of [serverproc], and the generator [r]. *)
Record proc := {
  retry : Z;
  update : bool;
  p_nodes : list string;
  idx : Z;
  ctx : option nat;
  r : rng
}.

Definition set_retry (x : Z) (p : proc) : proc :=
  {| retry := x; update := update p; p_nodes := p_nodes p; idx := idx p;
     ctx := ctx p; r := r p |}.

Definition set_update (x : bool) (p : proc) : proc :=
  {| retry := retry p; update := x; p_nodes := p_nodes p; idx := idx p;
     ctx := ctx p; r := r p |}.

Definition set_nodes (x : list string) (g : rng) (p : proc) : proc :=
  {| retry := retry p; update := update p; p_nodes := x; idx := idx p;
     ctx := ctx p; r := g |}.

Definition set_idx (x : Z) (p : proc) : proc :=
  {| retry := retry p; update := update p; p_nodes := p_nodes p; idx := x;
     ctx := ctx p; r := r p |}.

Definition set_ctx (x : option nat) (p : proc) : proc :=
  {| retry := retry p; update := update p; p_nodes := p_nodes p; idx := idx p;
     ctx := x; r := r p |}.

(** Which case of the [select] ran.  The runtime chooses among the cases
    that are ready, and takes [default] when none is. *)
Inductive select_case := CaseDone | CaseTick | CaseDelete | CaseDefault.

(** One iteration of the loop goes round again, returns, panics, or was not
    possible with the chosen [select] case. *)
Inductive iteration :=
  | Next (p : proc) (d : Discovery) (rqs : list request)
  | Return (d : Discovery)
  | Panicked (msg : string)
  | NotReady.

(** [if ctx == nil { ctx, cancel = context.WithCancel(d.ctx); d.cancelPolls = cancel }],
    which yields the live context. *)
Definition ensure_ctx (p : proc) (d : Discovery) : nat * proc * Discovery :=
  match ctx p with
  | None =>
      let '(k, d) := WithCancel d in
      (k, set_ctx (Some k) p, set_cancelPolls (Some k) d)
  | Some k => (k, p, d)
  end.

(** The [select] statement: [None] when the loop returns. *)
Definition select (sel : select_case) (p : proc) (d : Discovery)
    : option (res (option (proc * Discovery))) :=
  match sel with
  | CaseDone => if ctx_done d then Some (Ok None) else None
  | CaseTick => Some (Ok (Some (set_update true p, d)))
  | CaseDelete =>
      match delete_ch d with
      | app :: rest =>
          Some (d ← close_chan (event app) (set_delete_ch rest d);
                Ok (Some (p, d)))
      | [] => None
      end
  | CaseDefault =>
      if ctx_done d || bool_decide (delete_ch d ≠ []) then None
      else Some (Ok (Some (p, d)))
  end.

(** The refresh of the node list; the flag says that the iteration ends
    there ([continue]). *)
Definition refresh (reply : Reply (list string)) (p : proc) (d : Discovery)
    : res (bool * proc * Discovery * list request) :=
  if bool_decide (length (p_nodes p) = 0%nat) || update p then
    let p := set_update false p in
    let e := nodes d reply in
    let tnodes := ret e in
    if bool_decide (length tnodes = 0%nat) then
      Ok (true, set_retry (retry p + 1) p, after e, sent e)
    else
      let p := set_retry 0 p in
      '(g, shuffled) ← shuffle swap_nodes (Z.of_nat (length tnodes)) (r p) tnodes;
      Ok (false, set_nodes shuffled g p, after e, sent e)
  else Ok (false, p, d, []).

(** The rest of the iteration: the poll of the chosen node, and the
    broadcast of what it returned. *)
Definition poll_and_broadcast (k : nat) (reply : Reply (gmap string appData))
    (p : proc) (d : Discovery) (rqs : list request) : iteration :=
  let n := Z.of_nat (length (p_nodes p)) in
  match p_nodes p !! Z.to_nat (idx p `mod` n) with
  | Some host =>
      let e := polls d host reply in
      let d := after e in
      match ret e with
      | (_, Some _) =>
          if ctx_Err d k then Next (set_ctx None p) d (rqs ++ sent e)
          else
            let p := set_idx ((idx p + 1) `mod` 2 ^ 64) p in
            Next (set_retry (retry p + 1) p) d (rqs ++ sent e)
      | (apps, None) =>
          Next (set_retry 0 p) (broadcast d apps) (rqs ++ sent e)
      end
  | None => Panicked "index out of range"
  end.

(** One iteration of [serverproc]. *)
Definition serverproc_step (sel : select_case)
    (nodes_reply : Reply (list string))
    (polls_reply : Reply (gmap string appData))
    (p : proc) (d : Discovery) : iteration :=
  let '(k, p, d) := ensure_ctx p d in
  match select sel p d with
  | None => NotReady
  | Some (Panic msg) => Panicked msg
  | Some OutOfFuel => NotReady
  | Some (Ok None) => Return d
  | Some (Ok (Some (p, d))) =>
      match refresh nodes_reply p d with
      | Panic msg => Panicked msg
      | OutOfFuel => NotReady
      | Ok (true, p, d, rqs) => Next p d rqs
      | Ok (false, p, d, rqs) => poll_and_broadcast k polls_reply p d rqs
      end
  end.

(** The loop as [once.Do] starts it. *)
Definition serverproc_init (g : rng) : proc :=
  {| retry := 0; update := false; p_nodes := []; idx := 0; ctx := None; r := g |}.

(** *** The client before any broadcast *)

(** The clients reached from [New] by the operations of the callers and by
    polls, with no [broadcast] so far.  The last rule stands for the
    bookkeeping of contexts and channels, which leaves the app map alone. *)
Inductive before_broadcast : Discovery → Prop :=
  | bb_New cfg : before_broadcast (New cfg)
  | bb_Watch d appID :
      before_broadcast d → before_broadcast (Watch d appID).2
  | bb_Unwatch d appID :
      before_broadcast d → before_broadcast (Unwatch d appID)
  | bb_Reload d cfg :
      before_broadcast d → before_broadcast (Reload d cfg)
  | bb_Close d :
      before_broadcast d → before_broadcast (Close d)
  | bb_Register d ins reply :
      before_broadcast d → before_broadcast (after (Register d ins reply))
  | bb_polls d host reply :
      before_broadcast d → before_broadcast (after (polls d host reply))
  | bb_bookkeeping d d' :
      before_broadcast d → apps d' = apps d → before_broadcast d'.

(** *** The renew task of a registration *)

(** [cancel]: one POST to [/discovery/cancel]. *)
Definition cancel (d : Discovery) (ins : Instance) (reply : Reply string)
    : Effect (option error) :=
  let cfg := c d in
  let uri := _cancelURL (Domain cfg) in
  let params := newParams cfg in
  let params := url.Set_ "appid" (model.AppID ins) params in
  let rq := Request POST uri params in
  match reply with
  | NetErr e => {| ret := Some e; after := d; sent := [rq] |}
  | Res Code _ =>
      let ec := errors.Int Code in
      if negb (errors.Equal ec errors.OK)
      then {| ret := Some ec; after := d; sent := [rq] |}
      else {| ret := None; after := d; sent := [rq] |}
  end.

(** [renew]: one POST to [/discovery/renew]. *)
Definition renew (d : Discovery) (ins : Instance) (reply : Reply string)
    : Effect (option error) :=
  let cfg := c d in
  let uri := _renewURL (Domain cfg) in
  let params := newParams cfg in
  let params := url.Set_ "appid" (model.AppID ins) params in
  let rq := Request POST uri params in
  match reply with
  | NetErr e => {| ret := Some e; after := d; sent := [rq] |}
  | Res Code _ =>
      let ec := errors.Int Code in
      if negb (errors.Equal ec errors.OK)
      then {| ret := Some ec; after := d; sent := [rq] |}
      else {| ret := None; after := d; sent := [rq] |}
  end.

(** The [case <-ticker.C] of the task [Register] starts: a renewal, and a
    registration when the renewal says [NothingFound]. *)
Definition renew_tick (d : Discovery) (ins : Instance)
    (renew_reply register_reply : Reply string) : Effect unit :=
  let r := renew d ins renew_reply in
  match ret r with
  | Some e =>
      if errors.Equal errors.NothingFound e then
        let g := register (after r) ins register_reply in
        {| ret := (); after := after g; sent := (sent r ++ sent g)%list |}
      else {| ret := (); after := after r; sent := sent r |}
  | None => {| ret := (); after := after r; sent := sent r |}
  end.

(** The [case <-ctx.Done()] of the task of context [k]: the cancellation is
    posted, the completion is signalled and the task ends. *)
Definition renew_done (d : Discovery) (k : nat) (ins : Instance)
    (cancel_reply : Reply string) : Effect unit :=
  let r := cancel d ins cancel_reply in
  let d := after r in
  let d := set_renewals (filter (λ t, t.1 ≠ k) (renewals d)) d in
  {| ret := (); after := d; sent := sent r |}.

(** The cancel function [Register] returns, when it returns: the context
    is cancelled, and the task has taken its [Done] case. *)
Definition cancelFunc (d : Discovery) (k : nat) (ins : Instance)
    (cancel_reply : Reply string) : Effect unit :=
  renew_done (cancel_ctx k d) k ins cancel_reply.

End Client.

Arguments retry {rng} _.
Arguments update {rng} _.
Arguments p_nodes {rng} _.
Arguments idx {rng} _.
Arguments ctx {rng} _.
Arguments r {rng} _.
Arguments set_retry {rng} _ _.
Arguments set_update {rng} _ _.
Arguments set_nodes {rng} _ _ _.
Arguments set_idx {rng} _ _.
Arguments set_ctx {rng} _ _.
Arguments Next {rng} _ _ _.
Arguments Return {rng} _.
Arguments Panicked {rng} _.
Arguments NotReady {rng}.
Arguments ensure_ctx {rng} _ _.
Arguments select {rng} _ _ _.
Arguments serverproc_init {rng} _.

(** ** The vocabulary of the properties *)

(** What the loop does to one [appInfo]. *)
Definition reset_lastTs (changed : bool) (v : appInfo) : appInfo :=
  if changed then {| event := event v; zoneIns := zoneIns v; lastTs := 0 |} else v.

(** The snapshot [broadcast] stores for an app: its zones, without those
    whose instance list is empty. *)
Definition pruned (v : appData) : gmap string (list Instance) :=
  filter (λ kv, kv.2 ≠ []) (ZoneInstances v).

(** The instances of an app over all its zones. *)
Definition count_instances (l : list (string * list Instance)) : Z :=
  foldr (λ kv n, Z.of_nat (length kv.2) + n) 0 l.

(** The client holds, for an app, the baseline [ts] and the snapshot [zi]
    that [Fetch] returns. *)
Definition snapshot_is (d : Discovery) (appID : string) (ts : Z)
    (zi : gmap string (list Instance)) : Prop :=
  (∃ app, apps d !! appID = Some app ∧ lastTs app = ts)
  ∧ Fetch d appID = (zi, true).

(** The indices a swap may be called with. *)
Definition valid_swap (n : Z) (ij : Z * Z) : Prop :=
  0 ≤ ij.1 < n ∧ 0 ≤ ij.2 < n.

(** The swaps of a log, applied in order; the first panic ends them. *)
Fixpoint apply_swaps {St : Type} (swap : Z → Z → St → res St)
    (log : list (Z * Z)) (s : St) : res St :=
  match log with
  | [] => Ok s
  | (i, j) :: log => s ← swap i j s; apply_swaps swap log s
  end.

(** Two clients that differ at most in their app map and in the state of
    their channels. *)
Definition same_but_apps (d d' : Discovery) : Prop :=
  c d' = c d ∧ once d' = once d ∧ ctx_done d' = ctx_done d
  ∧ registry d' = registry d ∧ lastHost d' = lastHost d
  ∧ cancelPolls d' = cancelPolls d ∧ delete_ch d' = delete_ch d
  ∧ next_ctx d' = next_ctx d ∧ canceled d' = canceled d
  ∧ renewals d' = renewals d.

(** The channel of identity [e] exists, is open, has room for one value and
    holds at most one. *)
Definition chan_open (d : Discovery) (e : nat) : Prop :=
  ∃ ch, chans d !! e = Some ch ∧ closed ch = false ∧ capacity ch = 1%nat
        ∧ (buffered ch ≤ 1)%nat.

(** The event channels in use: those of the watched apps and those that
    wait in the [delete] channel are open and all different. *)
Definition channels_ok (d : Discovery) : Prop :=
  (∀ k app, apps d !! k = Some app → chan_open d (event app))
  ∧ (∀ k1 k2 a1 a2, apps d !! k1 = Some a1 → apps d !! k2 = Some a2 →
       event a1 = event a2 → k1 = k2)
  ∧ (∀ app, app ∈ delete_ch d → chan_open d (event app))
  ∧ NoDup (event <$> delete_ch d)
  ∧ (∀ k app, apps d !! k = Some app → event app ∉ event <$> delete_ch d).

(** The child contexts in use were all made by the client: the cancelled
    ones, the one [cancelPolls] cancels and those of the renew tasks lie
    below [next_ctx]. *)
Definition contexts_ok (d : Discovery) : Prop :=
  (∀ k, k ∈ canceled d → (k < next_ctx d)%nat)
  ∧ (∀ k, cancelPolls d = Some k → (k < next_ctx d)%nat)
  ∧ (∀ k ins, (k, ins) ∈ renewals d → (k < next_ctx d)%nat).

End naming.

(** ** The vocabulary of the properties of the peer node *)

(** The [replication] form field of a request. *)
Definition replication_field (rq : request) : option string :=
  url.Get "replication" (req_params rq).

(** An operation forwarded one request, whose [replication] field is
    [true] exactly when the node is in the same zone and [false] exactly
    when it is in another one. *)
Definition replication_flag_sent {T : Type} (n : registry.Node)
    (o : registry.Outcome T) : Prop :=
  ∃ rq, registry.sent o = [rq]
    ∧ (replication_field rq = Some "true" ↔ registry.otherZone n = false)
    ∧ (replication_field rq = Some "false" ↔ registry.otherZone n = true).

(** Every request an operation sent carries the [replication] field,
    [true] exactly when the node is in the same zone and [false] exactly
    when it is in another one. *)
Definition replication_flag_on_requests {T : Type} (n : registry.Node)
    (o : registry.Outcome T) : Prop :=
  ∀ rq, rq ∈ registry.sent o →
    (replication_field rq = Some "true" ↔ registry.otherZone n = false)
    ∧ (replication_field rq = Some "false" ↔ registry.otherZone n = true).

(** ** A concrete environment and concrete inputs *)

Module example.

(** An environment: no [ZONE] or [DEPLOY_ENV] variable, a metadata encoder,
    [range] in the order of [map_to_list], and a generator that counts. *)
Definition getenv (name : string) : string := "".
Definition hostname : string := "host-1".
Definition marshal (m : option (gmap string string)) : string :=
  match m with Some _ => "{}" | None => "null" end.
Definition range (A : Type) (m : gmap string A) : list (string * A) := map_to_list m.
Definition ServerErrCode : Z := -500.
Definition draw (n : Z) (g : Z) : Z * Z := (g `mod` n, g + 1).

(** [json.Unmarshal] into a record that is the raw text of an instance. *)
Definition unmarshal (body : string) (old : string) : string := body.



Definition cfg : naming.Config :=
  {| naming.Domain := "127.0.0.1:7171"; naming.Zone := "sh1";
     naming.Env := "test"; naming.Host := "" |}.

Definition provider : model.Instance :=
  {| model.Zone := "sh1"; model.Env := "test"; model.AppID := "provider";
     model.Hostname := "host-2";
     model.Addrs := ["http://172.0.0.1:8888"; "grpc://172.0.0.1:9999"];
     model.Color := "red"; model.Version := "1"; model.Status := 1;
     model.Metadata := Some {[ "weight" := "10" ]};
     model.RegTimestamp := 10; model.DirtyTimestamp := 20;
     model.LatestTimestamp := 30 |}.

Definition peer : registry.Node := registry.newNode "10.0.0.2:7171".

Abbreviation polls := (naming.polls range ServerErrCode).
Abbreviation broadcast := (naming.broadcast range).

(** A client that watches [provider], before any poll. *)
Definition watching : naming.Discovery :=
  (naming.Watch (naming.New getenv hostname cfg) "provider").2.

(** A first poll, of node [n1], that delivers one instance. *)
Definition v1 : naming.appData :=
  {| naming.ZoneInstances := {[ "sh1" := [provider] ]}; naming.LastTs := 100 |}.
Definition data1 : gmap string naming.appData := {[ "provider" := v1 ]}.
Definition polled : naming.Discovery :=
  broadcast (naming.after (polls watching "n1" (Res 0 data1))) data1.

(** A second poll, in which the app has no instance left. *)
Definition v2 : naming.appData :=
  {| naming.ZoneInstances := {[ "sh1" := [] ]}; naming.LastTs := 200 |}.
Definition data2 : gmap string naming.appData := {[ "provider" := v2 ]}.
Definition polled_again : naming.Discovery :=
  broadcast (naming.after (polls polled "n1" (Res 0 data2))) data2.

(** A poll whose reply has a zero [LastTs]. *)
Definition v0 : naming.appData :=
  {| naming.ZoneInstances := {[ "sh1" := [provider] ]}; naming.LastTs := 0 |}.
Definition data0 : gmap string naming.appData := {[ "provider" := v0 ]}.

(** A client that registered [provider]. *)
Definition registered : naming.Discovery :=
  naming.after (naming.Register marshal (naming.New getenv hostname cfg)
                  provider (Res 0 "")).

(** A new client, and the server loop with two nodes. *)
Definition fresh : naming.Discovery := naming.New getenv hostname cfg.
Definition looping : naming.proc Z :=
  naming.set_nodes ["n1"; "n2"] 0 (naming.serverproc_init 0).

(** The [appInfo] that [watching] holds for [provider]. *)
Definition provider_watch : naming.appInfo :=
  {| naming.event := 0; naming.zoneIns := None; naming.lastTs := 0 |}.

End example.

(** * Properties of the peer node *)

Section RegistryProperties.

Context {T : Type}.
Variable json_Marshal : option (gmap string string) → string.
Variable json_Unmarshal : string → T → T.

Abbreviation call := (registry.call json_Marshal json_Unmarshal).
Abbreviation Register := (registry.Register (T:=T) json_Marshal json_Unmarshal).
Abbreviation Cancel := (registry.Cancel (T:=T) json_Marshal json_Unmarshal).


(** Closes [k ∈ l → False] and [k ∉ l] for a literal list [l] of other
    literals. *)
Ltac not_listed :=
  let H := fresh in
  intros H; repeat (apply elem_of_cons in H as [H|H]; [discriminate H|]);
  by apply elem_of_nil in H.

Lemma Get_Set_eq k v p : url.Get k (url.Set_ k v p) = Some v.
Proof. unfold url.Get, url.Set_. by rewrite lookup_insert_eq. Qed.

Lemma Get_Set_ne k k' v p : k ≠ k' → url.Get k' (url.Set_ k v p) = url.Get k' p.
Proof. intros. unfold url.Get, url.Set_. by rewrite lookup_insert_ne. Qed.

(** The fields every action shares survive the fields the action adds. *)
Lemma action_params_other action i p k :
  k ∉ ["addrs"; "status"; "color"; "version"; "metadata"; "reg_timestamp";
       "dirty_timestamp"; "latest_timestamp"] →
  url.Get k (registry.action_params json_Marshal action i p) = url.Get k p.
Proof.
  intros Hk. unfold registry.action_params.
  destruct action; rewrite ?Get_Set_ne; try done;
    intros ?; subst k; apply Hk; repeat first [ apply list_elem_of_here | apply list_elem_of_further ].
Qed.

Lemma call_params_replication n action i :
  url.Get "replication" (registry.call_params json_Marshal n action i)
  = Some (if registry.otherZone n then "false" else "true").
Proof.
  unfold registry.call_params. rewrite action_params_other.
  - destruct (registry.otherZone n); apply Get_Set_eq.
  - not_listed.
Qed.

Lemma call_sent n action i uri data reply :
  registry.sent (call n action i uri data reply)
  = [Request POST uri (registry.call_params json_Marshal n action i)].
Proof.
  unfold registry.call. destruct reply; [done|].
  repeat case_bool_decide; done.
Qed.

Lemma call_replication_flag n action i uri data reply :
  replication_flag_sent n (call n action i uri data reply).
Proof.
  eexists. split; [apply call_sent|].
  unfold replication_field. simpl. rewrite call_params_replication.
  destruct (registry.otherZone n); split; split; congruence.
Qed.

Lemma replication_flag_sent_on_requests {U : Type} n (o : registry.Outcome U) :
  replication_flag_sent n o → replication_flag_on_requests n o.
Proof.
  intros (rq & Hsent & Hflag) rq' Hrq'. rewrite Hsent in Hrq'.
  apply list_elem_of_singleton in Hrq'. by subst rq'.
Qed.

(** What [call] posts for a renewal, had [Renew] reached it: the path the
    [case model.Renew] of [call] is written for. *)
Lemma call_Renew_request addr i data reply :
  let n := registry.newNode addr in
  ∃ rq, registry.sent (call n model.Renew i (registry.renewURL n) data reply) = [rq]
    ∧ req_method rq = POST
    ∧ req_uri rq = "http://" +:+ addr +:+ "/discovery/renew"
    ∧ url.Get "appid" (req_params rq) = Some (model.AppID i)
    ∧ url.Get "hostname" (req_params rq) = Some (model.Hostname i)
    ∧ url.Get "zone" (req_params rq) = Some (model.Zone i)
    ∧ url.Get "env" (req_params rq) = Some (model.Env i)
    ∧ url.Get "dirty_timestamp" (req_params rq)
      = Some (FormatInt (model.DirtyTimestamp i)).
Proof.
  intros n. eexists. split; [apply call_sent|].
  repeat split; simpl; unfold registry.call_params, registry.action_params;
    destruct (registry.otherZone n);
    repeat first [ done | rewrite Get_Set_eq | rewrite Get_Set_ne ].
Qed.

(** C1 (as the code has it).  [Renew] sends nothing to the peer: whatever
    the node, the instance and the reply the peer would give, no request is
    made, no error is returned, and in particular nothing is posted to
    [/discovery/renew]. *)
Theorem Renew_sends_no_request (n : registry.Node) (i : model.Instance)
    (reply : registry.PostReply) :
  registry.sent (registry.Renew (T:=T) n i reply) = []
  ∧ registry.err (registry.Renew (T:=T) n i reply) = None
  ∧ ∀ rq, rq ∈ registry.sent (registry.Renew (T:=T) n i reply) →
      req_uri rq ≠ registry.renewURL n.
Proof.
  split; [done|]. split; [done|].
  intros rq Hrq. simpl in Hrq. by apply elem_of_nil in Hrq.
Qed.

(** C3.  For every node and instance, every request that [Register],
    [Cancel], [Renew] or [call] (for any action, uri and data, so also for
    an update posted to [setURL]) sends to the peer carries
    [replication=true] if and only if [otherZone] is false, and
    [replication=false] if and only if it is true.  [Register], [Cancel] and
    [call] send exactly one such request. *)
Theorem replication_flag_iff_same_zone (n : registry.Node) (i : model.Instance)
    (reply : registry.PostReply) :
  replication_flag_on_requests n (Register n i reply)
  ∧ replication_flag_on_requests n (Cancel n i reply)
  ∧ replication_flag_on_requests n (registry.Renew (T:=T) n i reply)
  ∧ (∀ action uri data,
      replication_flag_on_requests n (call n action i uri data reply))
  ∧ replication_flag_sent n (Register n i reply)
  ∧ replication_flag_sent n (Cancel n i reply)
  ∧ ∀ action uri data, replication_flag_sent n (call n action i uri data reply).
Proof.
  split; [apply replication_flag_sent_on_requests, call_replication_flag|].
  split; [apply replication_flag_sent_on_requests, call_replication_flag|].
  split; [intros rq Hrq; simpl in Hrq; by apply elem_of_nil in Hrq|].
  split; [intros; apply replication_flag_sent_on_requests, call_replication_flag|].
  split; [apply call_replication_flag|].
  split; [apply call_replication_flag|].
  intros. apply call_replication_flag.
Qed.

(** C6.  When the peer replies with a non-zero code, [call] returns the
    error the code maps to.  If that error is [Conflict], the data of the
    reply is unmarshalled into the record the caller supplied; for any
    other code the record is left as it was.  [Register] and [Cancel]
    supply no record, and return the mapped error. *)
Theorem call_nonzero_code (n : registry.Node) (action : model.Action)
    (i : model.Instance) (uri : string) (data : option T) (Code : Z)
    (Data : string) :
  Code ≠ 0 →
  let o := call n action i uri data (registry.PostRes Code Data) in
  (errors.Int Code = errors.Conflict →
     registry.err o = Some errors.Conflict
     ∧ registry.data_out o = json_Unmarshal Data <$> data)
  ∧ (errors.Int Code ≠ errors.Conflict →
     registry.err o = Some (errors.Int Code)
     ∧ registry.data_out o = data)
  ∧ registry.err (Register n i (registry.PostRes Code Data)) = Some (errors.Int Code)
  ∧ registry.err (Cancel n i (registry.PostRes Code Data)) = Some (errors.Int Code).
Proof.
  intros HCode o. subst o.
  unfold registry.Register, registry.Cancel, registry.call.
  rewrite bool_decide_eq_true_2 by done.
  repeat split.
  - rewrite bool_decide_eq_true_2 by done. simpl. congruence.
  - by rewrite bool_decide_eq_true_2 by done.
  - by rewrite bool_decide_eq_false_2 by done.
  - by rewrite bool_decide_eq_false_2 by done.
  - by case_bool_decide.
  - by case_bool_decide.
Qed.

(** ** More on the peer node *)

(** X1.  [call] always sends one POST to the address it is given.  It returns no
    error exactly when the peer answers with the code 0; an error of the
    transport is returned as it is; and in both cases the record of the
    caller is left as it was. *)
Theorem call_nil_iff_code_zero (n : registry.Node) (action : model.Action)
    (i : model.Instance) (uri : string) (data : option T)
    (reply : registry.PostReply) :
  let o := call n action i uri data reply in
  (∃ rq, registry.sent o = [rq] ∧ req_method rq = POST ∧ req_uri rq = uri)
  ∧ (registry.err o = None ↔ ∃ Data, reply = registry.PostRes 0 Data)
  ∧ (∀ e, reply = registry.PostErr e →
       registry.err o = Some e ∧ registry.data_out o = data)
  ∧ (registry.err o = None → registry.data_out o = data).
Proof.
  intros o. subst o. split; [|split; [|split]].
  - rewrite call_sent. eauto.
  - unfold registry.call. destruct reply as [e|Code Data].
    + split; [done|]. by intros [? ?].
    + case_bool_decide as HCode.
      * split; [by case_bool_decide|]. intros [? [= -> _]]. done.
      * split; [|done]. intros _. exists Data. f_equal.
        by destruct (decide (Code = 0)).
  - by intros e ->.
  - unfold registry.call. destruct reply as [e|Code Data]; [done|].
    case_bool_decide; [by case_bool_decide|done].
Qed.

(** X2.  The form [Register] forwards has the thirteen fields of a registration
    and no other, with the three timestamps of the instance as they are;
    the form [Cancel] forwards has the six fields of a cancellation and no
    other, with the latest timestamp of the instance. *)
Theorem Register_Cancel_forms (n : registry.Node) (i : model.Instance)
    (reply : registry.PostReply) :
  (∃ rq, registry.sent (Register n i reply) = [rq]
     ∧ req_uri rq = registry.registerURL n
     ∧ dom (req_params rq)
       = {[ "zone"; "env"; "appid"; "hostname"; "replication"; "addrs";
            "status"; "color"; "version"; "metadata"; "reg_timestamp";
            "dirty_timestamp"; "latest_timestamp" ]}
     ∧ url.Get "appid" (req_params rq) = Some (model.AppID i)
     ∧ url.Get "hostname" (req_params rq) = Some (model.Hostname i)
     ∧ url.Get "addrs" (req_params rq) = Some (String.concat "," (model.Addrs i))
     ∧ url.Get "status" (req_params rq) = Some (FormatInt (model.Status i))
     ∧ url.Get "metadata" (req_params rq) = Some (json_Marshal (model.Metadata i))
     ∧ url.Get "reg_timestamp" (req_params rq)
       = Some (FormatInt (model.RegTimestamp i))
     ∧ url.Get "dirty_timestamp" (req_params rq)
       = Some (FormatInt (model.DirtyTimestamp i))
     ∧ url.Get "latest_timestamp" (req_params rq)
       = Some (FormatInt (model.LatestTimestamp i)))
  ∧ (∃ rq, registry.sent (Cancel n i reply) = [rq]
     ∧ req_uri rq = registry.cancelURL n
     ∧ dom (req_params rq)
       = {[ "zone"; "env"; "appid"; "hostname"; "replication";
            "latest_timestamp" ]}
     ∧ url.Get "appid" (req_params rq) = Some (model.AppID i)
     ∧ url.Get "hostname" (req_params rq) = Some (model.Hostname i)
     ∧ url.Get "zone" (req_params rq) = Some (model.Zone i)
     ∧ url.Get "env" (req_params rq) = Some (model.Env i)
     ∧ url.Get "latest_timestamp" (req_params rq)
       = Some (FormatInt (model.LatestTimestamp i))).
Proof.
  split; (eexists; split; [apply call_sent|]; split; [done|]; split).
  - simpl. unfold registry.call_params, registry.action_params, url.Set_.
    destruct (registry.otherZone n); rewrite !dom_insert_L, dom_empty_L;
      set_solver.
  - simpl. unfold registry.call_params, registry.action_params.
    destruct (registry.otherZone n);
      repeat split; repeat first [ done | rewrite Get_Set_eq | rewrite Get_Set_ne ].
  - simpl. unfold registry.call_params, registry.action_params, url.Set_.
    destruct (registry.otherZone n); rewrite !dom_insert_L, dom_empty_L;
      set_solver.
  - simpl. unfold registry.call_params, registry.action_params.
    destruct (registry.otherZone n);
      repeat split; repeat first [ done | rewrite Get_Set_eq | rewrite Get_Set_ne ].
Qed.

End RegistryProperties.

(** * Properties of the client *)

Section ClientProperties.
Import naming.

Variable os_Getenv : string → string.
Variable os_Hostname : string.
Variable json_Marshal : option (gmap string string) → string.
Variable range : ∀ A : Type, gmap string A → list (string * A).
Hypothesis range_perm : ∀ (A : Type) (m : gmap string A), range A m ≡ₚ map_to_list m.
Variable ServerErrCode : Z.
Variable rng : Type.
Variable Int63n : Z → rng → Z * rng.
Variable Int31n : Z → rng → Z * rng.
Hypothesis Int63n_range : ∀ n g, 0 < n → 0 ≤ (Int63n n g).1 < n.
Hypothesis Int31n_range : ∀ n g, 0 < n → 0 ≤ (Int31n n g).1 < n.

Local Abbreviation New := (naming.New os_Getenv os_Hostname).
Local Abbreviation Register := (naming.Register json_Marshal).
Local Abbreviation polls := (naming.polls range ServerErrCode).
Local Abbreviation ServerErr := (naming.ServerErr ServerErrCode).
Local Abbreviation broadcast_visit := (naming.broadcast_visit range).
Local Abbreviation broadcast := (naming.broadcast range).
Local Abbreviation rand_Int63n := (naming.rand_Int63n rng Int63n).
Local Abbreviation rand_Int31n := (naming.rand_Int31n rng Int31n).
Local Abbreviation shuffle_loop63 := (naming.shuffle_loop63 rng Int63n).
Local Abbreviation shuffle_loop31 := (naming.shuffle_loop31 rng Int31n).
Local Abbreviation shuffle := (naming.shuffle rng Int63n Int31n).
Local Abbreviation refresh := (naming.refresh rng Int63n Int31n).
Local Abbreviation poll_and_broadcast := (naming.poll_and_broadcast range ServerErrCode rng).
Local Abbreviation serverproc_step :=
  (naming.serverproc_step range ServerErrCode rng Int63n Int31n).
Local Abbreviation before_broadcast :=
  (naming.before_broadcast os_Getenv os_Hostname json_Marshal range ServerErrCode).

(** ** What [range] visits *)

Lemma elem_of_range {A : Type} (m : gmap string A) (k : string) (v : A) :
  (k, v) ∈ range A m ↔ m !! k = Some v.
Proof. rewrite (range_perm A m). apply elem_of_map_to_list. Qed.

Lemma NoDup_range_fst {A : Type} (m : gmap string A) : NoDup (range A m).*1.
Proof. rewrite (range_perm A m). apply NoDup_fst_map_to_list. Qed.

Lemma list_to_map_range {A : Type} (m : gmap string A) :
  list_to_map (range A m) = m.
Proof.
  etrans; [|apply (list_to_map_to_list m)].
  apply list_to_map_proper; [apply NoDup_range_fst | apply range_perm].
Qed.

Lemma length_range {A : Type} (m : gmap string A) :
  length (range A m) = size m.
Proof. rewrite (range_perm A m). apply length_map_to_list. Qed.

Lemma range_nil {A : Type} (m : gmap string A) : range A m = [] ↔ m = ∅.
Proof.
  split; intros H.
  - apply map_size_empty_iff. by rewrite <- length_range, H.
  - apply length_zero_iff_nil. rewrite length_range. by apply map_size_empty_iff.
Qed.

(** A loop that stores [f v] under each key it visits leaves [f <$> m],
    when it visits the entries of [m]. *)
Lemma foldl_insert_lookup {A : Type} (f : A → A) (l : list (string * A))
    (m0 : gmap string A) (k : string) :
  NoDup l.*1 →
  foldl (λ m kv, <[kv.1 := f kv.2]> m) m0 l !! k
  = match (list_to_map l : gmap string A) !! k with
    | Some v => Some (f v)
    | None => m0 !! k
    end.
Proof.
  revert m0. induction l as [|[k0 v0] l IH]; intros m0 Hnd; simpl.
  - by rewrite lookup_empty.
  - apply NoDup_cons in Hnd as [Hk0 Hnd]. rewrite IH by done.
    destruct (decide (k = k0)) as [->|Hne].
    + rewrite lookup_insert_eq.
      rewrite (not_elem_of_list_to_map_1 _ k0) by done.
      by rewrite lookup_insert_eq.
    + rewrite !lookup_insert_ne by done. done.
Qed.

Lemma foldl_insert_range {A : Type} (f : A → A) (m : gmap string A) :
  foldl (λ m kv, <[kv.1 := f kv.2]> m) m (range A m) = f <$> m.
Proof.
  apply map_eq. intros k.
  rewrite foldl_insert_lookup by apply NoDup_range_fst.
  rewrite list_to_map_range, lookup_fmap.
  by destruct (m !! k).
Qed.

(** ** The first loop of [polls] *)


Lemma polls_visit_foldl changed l m ids tss :
  foldl (polls_visit changed) (m, ids, tss) l
  = (foldl (λ m kv, <[kv.1 := reset_lastTs changed kv.2]> m) m l,
     (ids ++ l.*1)%list,
     (tss ++ ((λ kv, lastTs (reset_lastTs changed kv.2)) <$> l))%list).
Proof.
  revert m ids tss. induction l as [|[k v] l IH]; intros m ids tss; simpl.
  - by rewrite !app_nil_r.
  - unfold reset_lastTs in *. destruct changed; simpl; rewrite IH;
      by rewrite <- !app_assoc.
Qed.

Lemma polls_loop changed (m : gmap string appInfo) :
  foldl (polls_visit changed) (m, [], []) (range _ m)
  = (reset_lastTs changed <$> m, (range _ m).*1,
     (λ kv, lastTs (reset_lastTs changed kv.2)) <$> range _ m).
Proof. rewrite polls_visit_foldl. by rewrite foldl_insert_range. Qed.

(** ** The query of [polls] *)

Lemma foldl_Add_lookup {B : Type} (k : string) (g : B → string) (vs : list B)
    (p : Values) :
  default [] (foldl (λ p v, url.Add k (g v) p) p vs !! k)
  = (default [] (p !! k) ++ (g <$> vs))%list.
Proof.
  revert p. induction vs as [|v vs IH]; intros p; simpl.
  - by rewrite app_nil_r.
  - rewrite IH. unfold url.Add. rewrite lookup_insert_eq. simpl.
    by rewrite <- app_assoc.
Qed.

Lemma foldl_Add_lookup_ne {B : Type} (k k' : string) (g : B → string)
    (vs : list B) (p : Values) :
  k ≠ k' → foldl (λ p v, url.Add k (g v) p) p vs !! k' = p !! k'.
Proof.
  intros Hne. revert p. induction vs as [|v vs IH]; intros p; simpl; [done|].
  rewrite IH. unfold url.Add. by rewrite lookup_insert_ne.
Qed.

Lemma polls_params_timestamps cfg ids tss :
  default [] (polls_params cfg ids tss !! "latest_timestamp") = FormatInt <$> tss.
Proof.
  unfold polls_params. rewrite foldl_Add_lookup.
  rewrite foldl_Add_lookup_ne by done.
  unfold url.Set_. by rewrite !lookup_insert_ne, lookup_empty by done.
Qed.

Lemma polls_params_appids cfg ids tss :
  default [] (polls_params cfg ids tss !! "appid") = ids.
Proof.
  unfold polls_params. rewrite foldl_Add_lookup_ne by done.
  rewrite (foldl_Add_lookup "appid" id).
  unfold url.Set_. rewrite !lookup_insert_ne, lookup_empty by done.
  simpl. by rewrite list_fmap_id.
Qed.

(** The request of [polls], and the client it leaves: at most one GET, none
    when no app is watched; the baselines are reset when the host changed
    and nothing else of the client is touched. *)
Lemma polls_sent d host reply :
  let changed := bool_decide (host ≠ lastHost d) in
  sent (polls d host reply)
  = if bool_decide (apps d = ∅) then []
    else [Request GET (_pollURL host)
            (polls_params (c d) (range _ (apps d)).*1
               ((λ kv, lastTs (reset_lastTs changed kv.2)) <$> range _ (apps d)))].
Proof.
  intros changed. unfold polls. fold changed.
  assert (Hd : apps (if changed then set_lastHost host d else d) = apps d)
    by by destruct changed.
  assert (Hc : c (if changed then set_lastHost host d else d) = c d)
    by by destruct changed.
  rewrite Hd, Hc, polls_loop. simpl. rewrite length_fmap, length_range.
  case_bool_decide as Hsz.
  - apply map_size_empty_iff in Hsz. by rewrite bool_decide_eq_true_2.
  - rewrite bool_decide_eq_false_2
      by (intros He; apply Hsz; by apply map_size_empty_iff).
    destruct reply as [e|Code Data]; [done|].
    repeat match goal with |- context [if ?b then _ else _] => destruct b end; done.
Qed.

Lemma polls_after d host reply :
  let changed := bool_decide (host ≠ lastHost d) in
  after (polls d host reply)
  = set_apps (reset_lastTs changed <$> apps d)
      (if changed then set_lastHost host d else d).
Proof.
  intros changed. unfold polls. fold changed.
  assert (Hd : apps (if changed then set_lastHost host d else d) = apps d)
    by by destruct changed.
  rewrite Hd, polls_loop. simpl. clearbody changed.
  destruct reply;
    repeat match goal with |- context [if ?b then _ else _] => destruct b end;
    done.
Qed.

(** What [polls] returns once a request was made and answered. *)
Lemma polls_ret d host Code Data :
  apps d ≠ ∅ →
  ret (polls d host (Res Code Data))
  = if negb (errors.Equal (errors.Int Code) errors.OK) then
      if negb (errors.Equal (errors.Int Code) errors.NotModified)
      then (∅, Some (errors.Int Code)) else (∅, None)
    else if has_zero_LastTs (range _ Data) then (∅, Some ServerErr)
    else (Data, None).
Proof.
  intros Hne. unfold polls.
  set (changed := bool_decide (host ≠ lastHost d)).
  assert (Hd : apps (if changed then set_lastHost host d else d) = apps d)
    by by destruct changed.
  rewrite Hd, polls_loop. simpl. rewrite length_fmap, length_range.
  rewrite bool_decide_eq_false_2
    by (intros He; apply Hne; by apply map_size_empty_iff).
  repeat match goal with |- context [if ?b then _ else _] => destruct b end; done.
Qed.

Lemma has_zero_LastTs_true (l : list (string * appData)) :
  has_zero_LastTs l = true ↔ ∃ k v, (k, v) ∈ l ∧ LastTs v = 0.
Proof.
  induction l as [|[k v] l IH]; simpl.
  - split; [done|]. intros (? & ? & H & _). by apply elem_of_nil in H.
  - case_bool_decide as Hz.
    + split; [|done]. intros _. exists k, v. split; [left|done].
    + rewrite IH. split.
      * intros (k' & v' & ? & ?). exists k', v'. split; [by right|done].
      * intros (k' & v' & Hin & ?). apply elem_of_cons in Hin as [Heq|Hin].
        -- injection Heq as -> ->. done.
        -- by exists k', v'.
Qed.

(** C4.  When [polls] is called for a host other than [lastHost], every
    [latest_timestamp] of the request it sends is 0, there is one of them
    for each watched app, and a request is sent as soon as an app is
    watched. *)
Theorem polls_host_change_resets (d : Discovery) (host : string)
    (reply : Reply (gmap string appData)) :
  host ≠ lastHost d →
  (∀ rq, rq ∈ sent (polls d host reply) →
     Forall (λ ts, ts = "0") (default [] (req_params rq !! "latest_timestamp"))
     ∧ length (default [] (req_params rq !! "latest_timestamp")) = size (apps d)
     ∧ default [] (req_params rq !! "appid") ≡ₚ elements (dom (apps d)))
  ∧ (apps d ≠ ∅ → ∃ rq, sent (polls d host reply) = [rq]).
Proof.
  intros Hhost. pose proof (polls_sent d host reply) as Hs. simpl in Hs.
  rewrite (bool_decide_eq_true_2 _ Hhost) in Hs. rewrite Hs. clear Hs.
  split.
  - intros rq Hrq. case_bool_decide; [by apply elem_of_nil in Hrq|].
    apply list_elem_of_singleton in Hrq as ->. simpl.
    rewrite polls_params_timestamps, polls_params_appids.
    split; [|split].
    + rewrite <- list_fmap_compose. apply Forall_fmap, Forall_true. done.
    + by rewrite !length_fmap, length_range.
    + rewrite (range_perm _ (apps d)).
      assert (Hdom : dom (apps d) = list_to_set (map_to_list (apps d)).*1)
        by (apply leibniz_equiv, dom_alt).
      rewrite Hdom. symmetry. apply elements_list_to_set, NoDup_fst_map_to_list.
  - intros Hne. rewrite bool_decide_eq_false_2 by done. eauto.
Qed.

(** [polls] leaves the snapshots alone. *)
Lemma Fetch_polls d host reply appID :
  Fetch (after (polls d host reply)) appID = Fetch d appID.
Proof.
  rewrite polls_after. unfold Fetch. simpl. rewrite lookup_fmap.
  assert (Hd : apps (if bool_decide (host ≠ lastHost d)
                     then set_lastHost host d else d) = apps d)
    by by case_bool_decide.
  destruct (apps d !! appID) as [app|]; simpl; [|done].
  unfold reset_lastTs. by case_bool_decide.
Qed.

(** C5.  When the reply to a poll has the code OK and the [LastTs] of some
    app in it is 0, [polls] returns [ServerErr] and the nil map, and the
    snapshots [Fetch] reads are what they were. *)
Theorem polls_zero_LastTs_is_ServerErr (d : Discovery) (host : string)
    (Data : gmap string appData) :
  apps d ≠ ∅ →
  (∃ appID app, Data !! appID = Some app ∧ LastTs app = 0) →
  ret (polls d host (Res 0 Data)) = (∅, Some ServerErr)
  ∧ ∀ appID, Fetch (after (polls d host (Res 0 Data))) appID = Fetch d appID.
Proof.
  intros Hne (appID & app & Hin & Hz). split; [|intros; apply Fetch_polls].
  rewrite polls_ret by done. simpl.
  assert (has_zero_LastTs (range _ Data) = true) as ->; [|done].
  apply has_zero_LastTs_true. exists appID, app. split; [|done].
  by apply elem_of_range.
Qed.

(** ** broadcast *)


Lemma prune_visit_foldl l m c0 :
  foldl prune_visit (m, c0) l
  = (foldl (λ m kv, if bool_decide (length kv.2 = 0%nat) then delete kv.1 m else m) m l,
     c0 + count_instances l).
Proof.
  revert m c0. induction l as [|[k v] l IH]; intros m c0; simpl.
  - f_equal. lia.
  - rewrite IH. f_equal. lia.
Qed.

Lemma foldl_delete_lookup (l : list (string * list Instance))
    (m0 : gmap string (list Instance)) (k : string) :
  NoDup l.*1 →
  foldl (λ m kv, if bool_decide (length kv.2 = 0%nat) then delete kv.1 m else m) m0 l !! k
  = match (list_to_map l : gmap string (list Instance)) !! k with
    | Some ins => if bool_decide (length ins = 0%nat) then None else m0 !! k
    | None => m0 !! k
    end.
Proof.
  revert m0. induction l as [|[k0 v0] l IH]; intros m0 Hnd; simpl.
  - by rewrite lookup_empty.
  - apply NoDup_cons in Hnd as [Hk0 Hnd]. rewrite IH by done.
    destruct (decide (k = k0)) as [->|Hne].
    + rewrite (not_elem_of_list_to_map_1 _ k0) by done.
      rewrite lookup_insert_eq.
      case_bool_decide; [apply lookup_delete_eq|done].
    + rewrite lookup_insert_ne by done.
      assert ((if bool_decide (length v0 = 0%nat) then delete k0 m0 else m0) !! k
              = m0 !! k) as ->; [|done].
      case_bool_decide; [by apply lookup_delete_ne|done].
Qed.

Lemma prune_loop (v : appData) :
  foldl prune_visit (ZoneInstances v, 0) (range _ (ZoneInstances v))
  = (pruned v, count_instances (range _ (ZoneInstances v))).
Proof.
  rewrite prune_visit_foldl. f_equal. apply map_eq. intros k.
  rewrite foldl_delete_lookup by apply NoDup_range_fst.
  rewrite list_to_map_range. unfold pruned.
  destruct (ZoneInstances v !! k) as [ins|] eqn:Hk.
  - case_bool_decide as Hlen.
    + symmetry. apply map_lookup_filter_None. right. intros ins' Hk' Hne.
      simpl in Hne. rewrite Hk in Hk'. injection Hk' as <-.
      by apply length_zero_iff_nil in Hlen.
    + symmetry. apply map_lookup_filter_Some. split; [done|]. simpl.
      intros ->. by apply Hlen.
  - symmetry. apply map_lookup_filter_None. by left.
Qed.

Lemma count_instances_nonneg l : 0 ≤ count_instances l.
Proof. induction l as [|[k v] l IH]; simpl; lia. Qed.

Lemma count_instances_zero l :
  count_instances l = 0 ↔ ∀ k ins, (k, ins) ∈ l → ins = [].
Proof.
  induction l as [|[k v] l IH]; simpl.
  - split; [|done]. intros _ ? ? H. by apply elem_of_nil in H.
  - pose proof (count_instances_nonneg l). split.
    + intros Hz k' ins Hin. apply elem_of_cons in Hin as [Heq|Hin].
      * injection Heq as -> ->. apply length_zero_iff_nil. lia.
      * apply IH in Hin; [done|lia].
    + intros Hall.
      assert (v = []) as -> by (apply (Hall k); left).
      simpl. apply IH. intros k' ins Hin. apply (Hall k'). by right.
Qed.

Lemma apps_try_send ch d : apps (try_send ch d) = apps d.
Proof.
  unfold try_send. destruct (chans d !! ch); [|done]. by case_bool_decide.
Qed.

(** The body of the outer loop, with its inner loop solved. *)
Lemma broadcast_visit_eq d appID v :
  broadcast_visit d (appID, v)
  = if bool_decide (count_instances (range _ (ZoneInstances v)) = 0) then d
    else match apps d !! appID with
         | Some app =>
             try_send (event app)
               (set_apps (<[appID := {| event := event app;
                                        zoneIns := Some (pruned v);
                                        lastTs := LastTs v |}]> (apps d)) d)
         | None => d
         end.
Proof. unfold broadcast_visit. by rewrite prune_loop. Qed.

Lemma broadcast_visit_other d k v appID :
  k ≠ appID → apps (broadcast_visit d (k, v)) !! appID = apps d !! appID.
Proof.
  intros Hne. rewrite broadcast_visit_eq. case_bool_decide; [done|].
  destruct (apps d !! k); [|done].
  rewrite apps_try_send. simpl. by rewrite lookup_insert_ne.
Qed.

Lemma broadcast_foldl_other l d appID :
  appID ∉ l.*1 → apps (foldl broadcast_visit d l) !! appID = apps d !! appID.
Proof.
  revert d. induction l as [|[k v] l IH]; intros d Hni; simpl; [done|].
  apply not_elem_of_cons in Hni as [Hne Hni].
  rewrite IH by done. by apply broadcast_visit_other.
Qed.

(** What [broadcast] leaves under an app id: the entry of that app in the
    data decides alone. *)
Lemma broadcast_lookup d (data : gmap string appData) appID :
  apps (broadcast d data) !! appID
  = match data !! appID with
    | Some v => apps (broadcast_visit d (appID, v)) !! appID
    | None => apps d !! appID
    end.
Proof.
  unfold broadcast. destruct (data !! appID) as [v|] eqn:Hv.
  - apply elem_of_range in Hv.
    pose proof (NoDup_range_fst data) as Hnd.
    apply list_elem_of_split in Hv as (l1 & l2 & Hl). rewrite Hl in *.
    rewrite fmap_app, fmap_cons in Hnd. simpl in Hnd.
    apply NoDup_app in Hnd as (_ & Hl1 & Hnd).
    apply NoDup_cons in Hnd as [Hl2 _].
    rewrite foldl_app. cbn [foldl]. rewrite broadcast_foldl_other by done.
    rewrite !broadcast_visit_eq. case_bool_decide.
    + apply broadcast_foldl_other. intros Hin. apply (Hl1 _ Hin). left.
    + rewrite broadcast_foldl_other by (intros Hin; apply (Hl1 _ Hin); left).
      destruct (apps d !! appID) as [app|] eqn:Happ.
      * rewrite !apps_try_send. simpl. by rewrite !lookup_insert_eq.
      * apply broadcast_foldl_other. intros Hin. apply (Hl1 _ Hin). left.
  - apply broadcast_foldl_other. intros Hin.
    apply list_elem_of_fmap in Hin as ([k v] & -> & Hin).
    apply elem_of_range in Hin. simpl in Hv. congruence.
Qed.


Lemma pruned_id (v : appData) :
  (∀ zone ins, ZoneInstances v !! zone = Some ins → ins ≠ []) →
  pruned v = ZoneInstances v.
Proof.
  intros Hall. unfold pruned. apply map_eq. intros k.
  destruct (ZoneInstances v !! k) as [ins|] eqn:Hk.
  - apply map_lookup_filter_Some. split; [done|]. simpl. by apply (Hall k).
  - apply map_lookup_filter_None. by left.
Qed.

(** C2 (amended).  For an app that is watched, after a successful poll whose
    data has an entry for the app with at least one instance in some zone,
    and the broadcast of that data, the baseline [lastTs] of the app is the
    [LastTs] of the entry and [Fetch] returns the zones of the entry without
    the empty ones: exactly its [ZoneInstances] when no zone is empty. *)
Theorem poll_then_broadcast_snapshot (d : Discovery) (host : string)
    (reply : Reply (gmap string appData)) (data : gmap string appData)
    (appID : string) (v : appData) :
  is_Some (apps d !! appID) →
  ret (polls d host reply) = (data, None) →
  data !! appID = Some v →
  (∃ zone ins, ZoneInstances v !! zone = Some ins ∧ ins ≠ []) →
  let d' := broadcast (after (polls d host reply)) data in
  snapshot_is d' appID (LastTs v) (pruned v)
  ∧ ((∀ zone ins, ZoneInstances v !! zone = Some ins → ins ≠ []) →
     snapshot_is d' appID (LastTs v) (ZoneInstances v)).
Proof.
  intros [app Happ] _ Hv (zone & ins & Hzone & Hins) d'.
  assert (Hsnap : snapshot_is d' appID (LastTs v) (pruned v)).
  { assert (Hlook : apps d' !! appID
               = Some {| event := event app; zoneIns := Some (pruned v);
                         lastTs := LastTs v |}).
    { subst d'. rewrite broadcast_lookup, Hv, broadcast_visit_eq.
      rewrite bool_decide_eq_false_2.
      - rewrite polls_after. simpl. rewrite lookup_fmap, Happ. simpl.
        rewrite apps_try_send. simpl. rewrite lookup_insert_eq.
        unfold reset_lastTs. by case_bool_decide.
      - intros Hz. apply (Hins).
        apply (proj1 (count_instances_zero _) Hz zone).
        by apply elem_of_range. }
    split; [eauto|]. unfold Fetch. by rewrite Hlook. }
  split; [done|]. intros Hall. by rewrite <- (pruned_id v Hall).
Qed.

(** ** Register, Watch and Fetch *)

(** C7.  [Register] of an instance whose [AppID] is in the registry of the
    client returns [ErrDuplication] and no cancel function, sends no
    request and leaves the client, its registry included, as it was. *)
Theorem Register_duplicate (d : Discovery) (ins : Instance)
    (reply : Reply string) :
  model.AppID ins ∈ registry d →
  ret (Register d ins reply) = (None, Some EDuplication)
  ∧ after (Register d ins reply) = d
  ∧ registry (after (Register d ins reply)) = registry d
  ∧ sent (Register d ins reply) = [].
Proof.
  intros Hin. unfold Register. by rewrite bool_decide_eq_true_2.
Qed.

Lemma Watch_watched d appID app :
  apps d !! appID = Some app → Watch d appID = (event app, set_once true d).
Proof. intros H. unfold Watch. by rewrite H. Qed.

Lemma Watch_lookup d appID :
  ∃ app, apps (Watch d appID).2 !! appID = Some app
         ∧ event app = (Watch d appID).1.
Proof.
  unfold Watch. destruct (apps d !! appID) as [app|] eqn:Happ.
  - exists app. by simpl.
  - unfold make_chan. cbn. destruct (cancelPolls d); cbn;
      eexists; (split; [apply lookup_insert_eq|done]).
Qed.

(** C8.  A second [Watch] of the same app returns the event channel the
    first one returned and leaves the client, its app map included, as the
    first one left it. *)
Theorem Watch_idempotent (d : Discovery) (appID : string) :
  let w1 := Watch d appID in
  let w2 := Watch w1.2 appID in
  w2.1 = w1.1 ∧ apps w2.2 = apps w1.2 ∧ w2.2 = w1.2.
Proof.
  intros w1 w2. subst w2.
  destruct (Watch_lookup d appID) as (app & Happ & Hev). fold w1 in Happ, Hev.
  rewrite (Watch_watched _ _ _ Happ). simpl.
  assert (Honce : once w1.2 = true).
  { subst w1. unfold Watch. destruct (apps d !! appID); [done|].
    simpl. by destruct (cancelPolls d). }
  assert (Hsame : set_once true w1.2 = w1.2).
  { destruct w1.2. simpl in Honce. by rewrite Honce. }
  by rewrite Hsame.
Qed.

Lemma apps_Register d ins reply : apps (after (Register d ins reply)) = apps d.
Proof.
  unfold naming.Register. case_bool_decide; [done|].
  unfold WithCancel, naming.register. simpl.
  destruct reply as [e|Code msg]; simpl; [done|].
  by destruct (bool_decide (Code = 0)).
Qed.

(** Before any broadcast no snapshot is stored. *)
Lemma before_broadcast_no_snapshot d :
  before_broadcast d →
  ∀ appID app, apps d !! appID = Some app → zoneIns app = None.
Proof.
  induction 1 as [cfg|d k _ IH|d k _ IH|d cfg _ IH|d _ IH|d ins reply _ IH
                 |d host reply _ IH|d d' _ IH Happs]; intros appID app Happ.
  - done.
  - unfold Watch in Happ. destruct (apps d !! k) as [a|] eqn:Hk.
    + by apply (IH appID).
    + unfold make_chan in Happ. cbn in Happ.
      assert (Hins : <[k := {| event := length (chans d); zoneIns := None;
                              lastTs := 0 |}]> (apps d) !! appID = Some app)
        by (by destruct (cancelPolls d)).
      apply lookup_insert_Some in Hins as [[_ <-]|[_ Hold]]; [done|].
      by apply (IH appID).
  - unfold Unwatch in Happ. destruct (apps d !! k) as [a|] eqn:Hk.
    + simpl in Happ. apply lookup_delete_Some in Happ as [_ Hold].
      by apply (IH appID).
    + by apply (IH appID).
  - by apply (IH appID).
  - by apply (IH appID).
  - rewrite apps_Register in Happ. by apply (IH appID).
  - rewrite polls_after in Happ. simpl in Happ.
    apply lookup_fmap_Some in Happ as (a & <- & Ha).
    apply (IH appID) in Ha. unfold reset_lastTs. by case_bool_decide.
  - rewrite Happs in Happ. by apply (IH appID).
Qed.

(** C9.  [Fetch] returns [ok = false], with the nil map, for an app that is
    not watched and for a watched app in whose [zoneIns] nothing was stored
    yet; so it does for every app of a client on which no broadcast took
    place since [New].  When it returns [ok = true], the map is the
    snapshot that was stored. *)
Theorem Fetch_not_ok_before_snapshot (d : Discovery) (appID : string) :
  (apps d !! appID = None → Fetch d appID = (∅, false))
  ∧ (∀ app, apps d !! appID = Some app → zoneIns app = None →
       Fetch d appID = (∅, false))
  ∧ (before_broadcast d → Fetch d appID = (∅, false))
  ∧ ((Fetch d appID).2 = true →
       ∃ app ins, apps d !! appID = Some app ∧ zoneIns app = Some ins
                  ∧ (Fetch d appID).1 = ins).
Proof.
  repeat split.
  - unfold Fetch. by intros ->.
  - unfold Fetch. by intros app -> ->.
  - intros Hbb. unfold Fetch. destruct (apps d !! appID) as [app|] eqn:Happ; [|done].
    by rewrite (before_broadcast_no_snapshot d Hbb appID app Happ).
  - unfold Fetch. destruct (apps d !! appID) as [app|]; [|done].
    destruct (zoneIns app) as [ins|] eqn:Hz; [|done]. eauto.
Qed.

(** ** shuffle *)

Lemma int32_small (x : Z) : 0 ≤ x < 2 ^ 31 → int32 x = x.
Proof. intros Hx. unfold int32. rewrite Z.mod_small; lia. Qed.

Section ShuffleInvariant.
(** A swap that, on indices below [n], does not panic and keeps [Inv]. *)
Context {St : Type}.
Variable swap : Z → Z → St → res St.
Variable Inv : St → Prop.
Variable n : Z.
Hypothesis swap_ok : ∀ i j s,
  0 ≤ i < n → 0 ≤ j < n → Inv s → ∃ s', swap i j s = Ok s' ∧ Inv s'.

Lemma shuffle_loop63_ok fuel i g s :
  i < n → i < Z.of_nat fuel → Inv s →
  ∃ i' g' s', shuffle_loop63 swap fuel i g s = Ok (i', g', s')
              ∧ i' ≤ 2 ^ 31 - 1 - 1 ∧ i' ≤ i ∧ Inv s'.
Proof.
  revert i g s. induction fuel as [|fuel IH]; intros i g s Hn Hfuel Hs.
  - simpl. case_bool_decide; [lia|]. exists i, g, s. repeat split; [lia..|done].
  - simpl. case_bool_decide as Hi.
    + unfold rand_Int63n. rewrite bool_decide_eq_false_2 by lia.
      pose proof (Int63n_range (i + 1) g ltac:(lia)) as Hj.
      destruct (Int63n (i + 1) g) as [j g1]. simpl in Hj |- *.
      destruct (swap_ok i j s) as (s1 & -> & Hs1); [lia..|done|]. simpl.
      destruct (IH (i - 1) g1 s1) as (i' & g' & s' & -> & ? & ? & ?);
        [lia..|done|].
      exists i', g', s'. repeat split; [lia..|done].
    + exists i, g, s. repeat split; [lia..|done].
Qed.

Lemma shuffle_loop31_ok fuel i g s :
  i < n → i ≤ 2 ^ 31 - 1 - 1 → i < Z.of_nat fuel → Inv s →
  ∃ i' g' s', shuffle_loop31 swap fuel i g s = Ok (i', g', s') ∧ Inv s'.
Proof.
  revert i g s. induction fuel as [|fuel IH]; intros i g s Hn Hi31 Hfuel Hs.
  - simpl. case_bool_decide; [lia|]. by exists i, g, s.
  - simpl. case_bool_decide as Hi.
    + rewrite int32_small by lia.
      unfold rand_Int31n. rewrite bool_decide_eq_false_2 by lia.
      pose proof (Int31n_range (i + 1) g ltac:(lia)) as Hj.
      destruct (Int31n (i + 1) g) as [j g1]. simpl in Hj |- *.
      destruct (swap_ok i j s) as (s1 & -> & Hs1); [lia..|done|]. simpl.
      apply IH; [lia..|done].
    + by exists i, g, s.
Qed.

Lemma shuffle_ok g s :
  0 ≤ n → Inv s → ∃ g' s', shuffle swap n g s = Ok (g', s') ∧ Inv s'.
Proof.
  intros Hn Hs. unfold shuffle. rewrite bool_decide_eq_false_2 by lia.
  destruct (shuffle_loop63_ok (Z.to_nat n) (n - 1) g s)
    as (i1 & g1 & s1 & -> & Hi1 & Hle & Hs1); [lia..|done|]. simpl.
  destruct (shuffle_loop31_ok (Z.to_nat n) i1 g1 s1)
    as (i2 & g2 & s2 & -> & Hs2); [lia..|done|]. simpl.
  by exists g2, s2.
Qed.

End ShuffleInvariant.

Lemma shuffle_negative {St : Type} (swap : Z → Z → St → res St) n g s :
  n < 0 → shuffle swap n g s = Panic "invalid argument to Shuffle".
Proof. intros Hn. unfold shuffle. by rewrite bool_decide_eq_true_2. Qed.


(** What the two loops do with any swap is what their log says: the calls
    of [swap] are those of the log, in its order. *)
Lemma shuffle_loop63_trace n fuel i g log0 :
  i < n → i < Z.of_nat fuel →
  ∃ i' g' tr,
    shuffle_loop63 swap_log fuel i g log0 = Ok (i', g', (log0 ++ tr)%list)
    ∧ Forall (valid_swap n) tr ∧ i' ≤ 2 ^ 31 - 1 - 1 ∧ i' ≤ i
    ∧ ∀ (St : Type) (swap : Z → Z → St → res St) (s : St),
        shuffle_loop63 swap fuel i g s
        = (s' ← apply_swaps swap tr s; Ok (i', g', s')).
Proof.
  revert i g log0. induction fuel as [|fuel IH]; intros i g log0 Hn Hfuel.
  - exists i, g, []. simpl. rewrite app_nil_r.
    case_bool_decide; [lia|]. repeat split; try done; try lia.
  - simpl. case_bool_decide as Hi.
    + unfold naming.rand_Int63n. rewrite bool_decide_eq_false_2 by lia.
      pose proof (Int63n_range (i + 1) g ltac:(lia)) as Hj.
      destruct (Int63n (i + 1) g) as [j g1]. simpl in Hj |- *.
      destruct (IH (i - 1) g1 (log0 ++ [(i, j)])%list)
        as (i' & g' & tr & -> & Htr & ? & ? & Hany); [lia..|].
      exists i', g', ((i, j) :: tr). rewrite <- app_assoc. simpl.
      repeat split; try done; try lia.
      * apply Forall_cons. split; [|by eapply Forall_impl].
        unfold valid_swap. simpl. lia.
      * intros St swap s. destruct (swap i j s) as [s1| |]; simpl; [|done..].
        apply Hany.
    + exists i, g, []. rewrite app_nil_r. repeat split; try done; lia.
Qed.

Lemma shuffle_loop31_trace n fuel i g log0 :
  i < n → i ≤ 2 ^ 31 - 1 - 1 → i < Z.of_nat fuel →
  ∃ i' g' tr,
    shuffle_loop31 swap_log fuel i g log0 = Ok (i', g', (log0 ++ tr)%list)
    ∧ Forall (valid_swap n) tr
    ∧ ∀ (St : Type) (swap : Z → Z → St → res St) (s : St),
        shuffle_loop31 swap fuel i g s
        = (s' ← apply_swaps swap tr s; Ok (i', g', s')).
Proof.
  revert i g log0. induction fuel as [|fuel IH]; intros i g log0 Hn Hi31 Hfuel.
  - exists i, g, []. simpl. rewrite app_nil_r.
    case_bool_decide; [lia|]. repeat split; try done.
  - simpl. case_bool_decide as Hi.
    + rewrite int32_small by lia.
      unfold naming.rand_Int31n. rewrite bool_decide_eq_false_2 by lia.
      pose proof (Int31n_range (i + 1) g ltac:(lia)) as Hj.
      destruct (Int31n (i + 1) g) as [j g1]. simpl in Hj |- *.
      destruct (IH (i - 1) g1 (log0 ++ [(i, j)])%list)
        as (i' & g' & tr & -> & Htr & Hany); [lia..|].
      exists i', g', ((i, j) :: tr). rewrite <- app_assoc. simpl.
      repeat split; try done.
      * apply Forall_cons. split; [|done]. unfold valid_swap. simpl. lia.
      * intros St swap s. destruct (swap i j s) as [s1| |]; simpl; [|done..].
        apply Hany.
    + exists i, g, []. rewrite app_nil_r. repeat split; try done.
Qed.

Lemma shuffle_log n g :
  0 ≤ n →
  ∃ g' log, shuffle swap_log n g [] = Ok (g', log) ∧ Forall (valid_swap n) log
    ∧ ∀ (St : Type) (swap : Z → Z → St → res St) (s : St),
        shuffle swap n g s = (s' ← apply_swaps swap log s; Ok (g', s')).
Proof.
  intros Hn. unfold naming.shuffle. rewrite bool_decide_eq_false_2 by lia.
  destruct (shuffle_loop63_trace n (Z.to_nat n) (n - 1) g [])
    as (i1 & g1 & tr1 & -> & Htr1 & Hi1 & Hle & Hany1); [lia..|]. simpl.
  destruct (shuffle_loop31_trace n (Z.to_nat n) i1 g1 tr1)
    as (i2 & g2 & tr2 & -> & Htr2 & Hany2); [lia..|]. simpl.
  exists g2, (tr1 ++ tr2)%list. split; [done|].
  split; [by apply Forall_app|].
  intros St swap s. rewrite Hany1. clear Hany1.
  revert s. induction tr1 as [|[i j] tr1 IHtr]; intros s; simpl.
  - rewrite Hany2. by destruct (apply_swaps swap tr2 s).
  - destruct (swap i j s) as [s1| |]; simpl; [|done..].
    apply IHtr. by apply Forall_cons in Htr1 as [_ ?].
Qed.

Lemma swap_nodes_perm (l0 : list string) i j l :
  0 ≤ i < Z.of_nat (length l0) → 0 ≤ j < Z.of_nat (length l0) → l ≡ₚ l0 →
  ∃ l', swap_nodes i j l = Ok l' ∧ l' ≡ₚ l0.
Proof.
  intros Hi Hj Hl. pose proof (Permutation_length Hl) as Hlen.
  unfold swap_nodes. rewrite !bool_decide_eq_true_2 by lia. simpl.
  destruct (lookup_lt_is_Some_2 l (Z.to_nat i)) as [a Ha]; [lia|].
  destruct (lookup_lt_is_Some_2 l (Z.to_nat j)) as [b Hb]; [lia|].
  rewrite Ha, Hb. eexists. split; [done|].
  rewrite <- Hl. by apply Permutation_insert_swap.
Qed.

Lemma shuffle_nodes (l : list string) g :
  ∃ g' l', shuffle swap_nodes (Z.of_nat (length l)) g l = Ok (g', l') ∧ l' ≡ₚ l.
Proof.
  apply (shuffle_ok swap_nodes (λ l', l' ≡ₚ l) (Z.of_nat (length l))); [|lia|done].
  intros i j s Hi Hj Hs. by apply swap_nodes_perm.
Qed.

(** The refresh of the server loop neither panics nor runs out of fuel. *)
Lemma refresh_returns reply p d : ∃ x, refresh reply p d = Ok x.
Proof.
  unfold naming.refresh.
  destruct (bool_decide (length (p_nodes p) = 0%nat) || update p); [|eauto].
  case_bool_decide; [eauto|].
  destruct (shuffle_nodes (ret (nodes d reply))
              (r (set_retry 0 (set_update false p)))) as (g' & l' & -> & _).
  simpl. eauto.
Qed.

(** When the refresh lets the iteration go on, there is a node to poll. *)
Lemma refresh_nodes reply p d p' d' rqs :
  refresh reply p d = Ok (false, p', d', rqs) →
  p_nodes p' ≠ [] ∧ idx p' = idx p.
Proof.
  unfold naming.refresh.
  destruct (bool_decide (length (p_nodes p) = 0%nat) || update p) eqn:Hcond.
  - destruct (decide (length (ret (nodes d reply)) = 0%nat)) as [Hlen|Hlen];
      [rewrite bool_decide_eq_true_2 by done; intros [=]
      |rewrite bool_decide_eq_false_2 by done].
    destruct (shuffle_nodes (ret (nodes d reply))
                (r (set_retry 0 (set_update false p)))) as (g' & l' & -> & Hperm).
    simpl. intros [= <- _ _]. simpl. split; [|done].
    intros ->. apply Permutation_nil_l in Hperm.
    apply Hlen. by rewrite <- Hperm.
  - intros [= <- _ _]. split; [|done].
    apply orb_false_iff in Hcond as [Hlen _].
    apply bool_decide_eq_false in Hlen. intros Hnil. apply Hlen. by rewrite Hnil.
Qed.

(** The poll panics on no index, once there is a node. *)
Lemma poll_and_broadcast_no_panic k reply p d rqs msg :
  p_nodes p ≠ [] → 0 ≤ idx p → poll_and_broadcast k reply p d rqs ≠ Panicked msg.
Proof.
  intros Hne Hidx. unfold naming.poll_and_broadcast.
  assert (Hlen : (0 < length (p_nodes p))%nat)
    by (destruct (p_nodes p); [done|simpl; lia]).
  pose proof (Z.mod_pos_bound (idx p) (Z.of_nat (length (p_nodes p))) ltac:(lia)).
  destruct (lookup_lt_is_Some_2 (p_nodes p)
              (Z.to_nat (idx p `mod` Z.of_nat (length (p_nodes p)))))
    as [host ->]; [lia|].
  destruct (ret (polls d host reply)) as [apps [e|]]; [|done].
  by destruct (ctx_Err _ k).
Qed.

(** One iteration of the server loop panics only by closing a channel
    that is closed or missing: never in the shuffle, and on no index. *)
Lemma serverproc_step_panics sel nodes_reply polls_reply p d msg :
  0 ≤ idx p →
  serverproc_step sel nodes_reply polls_reply p d = Panicked msg →
  msg = "close of closed channel" ∨ msg = "close of nil channel".
Proof.
  intros Hidx. unfold naming.serverproc_step.
  destruct (ensure_ctx p d) as [[k p1] d1] eqn:Hctx.
  assert (Hidx1 : idx p1 = idx p).
  { unfold naming.ensure_ctx in Hctx. destruct (ctx p); by injection Hctx as <- <- <-. }
  assert (Hgo : ∀ p2 d2, idx p2 = idx p →
            match refresh nodes_reply p2 d2 with
            | Ok (true, p, d, rqs) => Next p d rqs
            | Ok (false, p, d, rqs) => poll_and_broadcast k polls_reply p d rqs
            | Panic msg => Panicked msg
            | OutOfFuel => NotReady
            end ≠ Panicked msg).
  { intros p2 d2 Hp2.
    destruct (refresh_returns nodes_reply p2 d2) as ([[[[] p3] d3] rqs] & Hr);
      rewrite Hr; [done|].
    apply refresh_nodes in Hr as [Hne Hidx3].
    apply poll_and_broadcast_no_panic; [done|lia]. }
  destruct sel; simpl.
  - by destruct (ctx_done d1).
  - intros H. by apply (Hgo (set_update true p1) d1) in H.
  - destruct (delete_ch d1) as [|app rest]; [done|].
    unfold close_chan. simpl.
    destruct (chans d1 !! event app) as [ch|]; simpl.
    + destruct (closed ch); simpl.
      * intros [= <-]. by left.
      * intros H. by apply Hgo in H.
    + intros [= <-]. by right.
  - destruct (ctx_done d1 || bool_decide (delete_ch d1 ≠ [])); [done|].
    intros H. by apply Hgo in H.
Qed.

(** C10.  For every [n ≥ 0], [shuffle] returns, and calls its swap only with
    pairs of indices in [0, n); for [n < 0] it panics.  With the swap of the
    server loop and [n] the length of the node list, it panics in no case
    and leaves a permutation of the list: when the server loop refreshes
    its nodes and [/discovery/nodes] returned addresses, [shuffle] is called
    with their number, which is at least 1, and the loop goes on with a
    permutation of these addresses. *)
Theorem shuffle_is_permutation :
  (∀ n g, 0 ≤ n →
     ∃ g' log, shuffle swap_log n g [] = Ok (g', log) ∧ Forall (valid_swap n) log
       ∧ ∀ (St : Type) (swap : Z → Z → St → res St) (s : St),
           shuffle swap n g s = (s' ← apply_swaps swap log s; Ok (g', s')))
  ∧ (∀ n g (l : list string), n < 0 →
     shuffle swap_nodes n g l = Panic "invalid argument to Shuffle")
  ∧ (∀ (l : list string) g,
     ∃ g' l', shuffle swap_nodes (Z.of_nat (length l)) g l = Ok (g', l') ∧ l' ≡ₚ l)
  ∧ (∀ reply p d,
     length (p_nodes p) = 0%nat ∨ update p = true →
     ret (nodes d reply) ≠ [] →
     (1 ≤ length (ret (nodes d reply)))%nat
     ∧ ∃ p', refresh reply p d
             = Ok (false, p', after (nodes d reply), sent (nodes d reply))
           ∧ p_nodes p' ≡ₚ ret (nodes d reply)).
Proof.
  split; [apply shuffle_log|].
  split; [intros; by apply shuffle_negative|].
  split; [apply shuffle_nodes|].
  intros reply p d Hcond Hne. split.
  { destruct (ret (nodes d reply)); [done|simpl; lia]. }
  unfold refresh.
  assert (bool_decide (length (p_nodes p) = 0%nat) || update p = true) as ->.
  { destruct Hcond as [H|H]; [by rewrite bool_decide_eq_true_2|].
    rewrite H. apply orb_true_r. }
  rewrite bool_decide_eq_false_2
    by (intros H; by apply length_zero_iff_nil in H).
  destruct (shuffle_nodes (ret (nodes d reply)) (r (set_retry 0 (set_update false p))))
    as (g' & l' & -> & Hperm).
  simpl. eexists. split; [done|]. done.
Qed.

(** ** More on self-registration *)

Local Abbreviation fixConfig := (naming.fixConfig os_Getenv os_Hostname).
Local Abbreviation Reload := (naming.Reload os_Getenv os_Hostname).
Local Abbreviation register := (naming.register json_Marshal).
Local Abbreviation renew_tick := (naming.renew_tick json_Marshal).

(** X3.  The form of [register]: the zone, the environment and the host name
    are those of the configuration, whatever the instance says, and the
    status is always 1.  The metadata is empty for a nil map. *)
Theorem register_form (d : Discovery) (ins : Instance) (reply : Reply string) :
  ∃ rq, sent (register d ins reply) = [rq]
    ∧ req_method rq = POST
    ∧ req_uri rq = "http://" +:+ Domain (c d) +:+ "/discovery/register"
    ∧ dom (req_params rq)
      = {[ "zone"; "env"; "hostname"; "appid"; "addrs"; "color"; "version";
           "status"; "metadata" ]}
    ∧ url.Get "zone" (req_params rq) = Some (Zone (c d))
    ∧ url.Get "env" (req_params rq) = Some (Env (c d))
    ∧ url.Get "hostname" (req_params rq) = Some (Host (c d))
    ∧ url.Get "appid" (req_params rq) = Some (model.AppID ins)
    ∧ url.Get "addrs" (req_params rq) = Some (String.concat "," (model.Addrs ins))
    ∧ url.Get "status" (req_params rq) = Some "1"
    ∧ (model.Metadata ins = None → url.Get "metadata" (req_params rq) = Some "").
Proof.
  assert (Hsent : ∃ rq, sent (register d ins reply) = [rq]
            ∧ rq = Request POST (_registerURL (Domain (c d)))
                (url.Set_ "metadata"
                   match model.Metadata ins with
                   | Some _ => json_Marshal (model.Metadata ins)
                   | None => ""
                   end
                   (url.Set_ "status" _statusUP
                      (url.Set_ "version" (model.Version ins)
                         (url.Set_ "color" (model.Color ins)
                            (url.Set_ "addrs" (String.concat "," (model.Addrs ins))
                               (url.Set_ "appid" (model.AppID ins)
                                  (newParams (c d))))))))).
  { unfold naming.register. destruct reply as [e|Code msg]; simpl; [eauto|].
    destruct (bool_decide (Code = 0)); simpl; eauto. }
  destruct Hsent as (rq & Hsent & ->). eexists. split; [exact Hsent|].
  split; [done|]. split; [done|]. split.
  { simpl. unfold newParams, url.Set_. rewrite !dom_insert_L, dom_empty_L.
    clear. set_solver. }
  simpl. unfold newParams.
  repeat split; repeat first [ done | rewrite Get_Set_eq | rewrite Get_Set_ne ].
  intros ->. done.
Qed.

Lemma register_after d ins reply : after (register d ins reply) = d.
Proof.
  unfold naming.register. destruct reply as [e|Code msg]; simpl; [done|].
  by destruct (bool_decide (Code = 0)).
Qed.

Lemma register_ret d ins reply :
  ret (register d ins reply)
  = match reply with
    | NetErr e => Some e
    | Res Code _ => if bool_decide (Code = 0) then None else Some (errors.Int Code)
    end.
Proof.
  unfold naming.register. destruct reply as [e|Code msg]; simpl; [done|].
  by destruct (bool_decide (Code = 0)).
Qed.

(** X4.  A registration that the server accepts: the app id enters the
    registry, the renew task is started on a fresh context that is
    returned as the cancel function, one request is sent, and the watches
    are not touched.  A second [Register] of the instance is then refused
    as a duplicate. *)
Theorem Register_accepted (d : Discovery) (ins : Instance) (msg : string)
    (reply' : Reply string) :
  model.AppID ins ∉ registry d →
  let e := Register d ins (Res 0 msg) in
  ret e = (Some (next_ctx d), None)
  ∧ registry (after e) = {[model.AppID ins]} ∪ registry d
  ∧ renewals (after e) = (next_ctx d, ins) :: renewals d
  ∧ canceled (after e) = canceled d
  ∧ apps (after e) = apps d
  ∧ sent e = sent (register d ins (Res 0 msg))
  ∧ ret (Register (after e) ins reply') = (None, Some EDuplication).
Proof.
  intros Hnew e. subst e.
  assert (Heq : Register d ins (Res 0 msg)
            = {| ret := (Some (next_ctx d), None);
                 after := set_renewals ((next_ctx d, ins) :: renewals d)
                            (set_next_ctx (S (next_ctx d))
                               (set_registry ({[model.AppID ins]} ∪ registry d) d));
                 sent := sent (register d ins (Res 0 msg)) |}).
  { unfold naming.Register. rewrite bool_decide_eq_false_2 by done. done. }
  rewrite Heq. simpl. repeat split.
  unfold naming.Register. simpl. rewrite bool_decide_eq_true_2; [done|].
  apply elem_of_union; left; by apply elem_of_singleton.
Qed.

(** X5.  A registration that fails, by the transport or by a code other than 0:
    the error is returned with no cancel function, the registry is what it
    was, no renew task is started, and the context made for it is
    cancelled.  The app id can therefore be registered again. *)
Theorem Register_refused (d : Discovery) (ins : Instance) (reply : Reply string)
    (err : error) :
  model.AppID ins ∉ registry d →
  ret (register d ins reply) = Some err →
  let e := Register d ins reply in
  ret e = (None, Some err)
  ∧ registry (after e) = registry d
  ∧ renewals (after e) = renewals d
  ∧ apps (after e) = apps d
  ∧ ctx_Err (after e) (next_ctx d) = true
  ∧ sent e = sent (register d ins reply)
  ∧ ∀ msg, (ret (Register (after e) ins (Res 0 msg))).2 = None.
Proof.
  intros Hnew Herr e. subst e.
  assert (Hret : ∀ d', ret (register d' ins reply) = Some err).
  { intros d'. rewrite register_ret. by rewrite register_ret in Herr. }
  assert (Hsent : ∀ d', c d' = c d →
            sent (register d' ins reply) = sent (register d ins reply)).
  { intros d' Hc. unfold naming.register. rewrite Hc.
    destruct reply as [?|Code ?]; simpl; [done|].
    by destruct (bool_decide (Code = 0)). }
  assert (Hreg : ({[model.AppID ins]} ∪ registry d) ∖ {[model.AppID ins]}
                 = registry d) by (clear -Hnew; set_solver).
  assert (Heq : Register d ins reply
            = {| ret := (None, Some err);
                 after := cancel_ctx (next_ctx d)
                            (set_registry (registry d)
                               (set_next_ctx (S (next_ctx d))
                                  (set_registry ({[model.AppID ins]} ∪ registry d) d)));
                 sent := sent (register d ins reply) |}).
  { unfold naming.Register. rewrite bool_decide_eq_false_2 by done.
    unfold WithCancel. cbn zeta. cbn beta iota.
    rewrite Hret, register_after. simpl. rewrite Hreg. f_equal. by apply Hsent. }
  rewrite Heq. simpl. repeat split; try done.
  - unfold ctx_Err. simpl. rewrite bool_decide_eq_true_2
      by (apply elem_of_union; left; by apply elem_of_singleton).
    apply orb_true_r.
  - intros msg. unfold naming.Register. simpl.
    rewrite bool_decide_eq_false_2 by done. done.
Qed.

Lemma renew_sent d ins reply :
  sent (renew d ins reply)
  = [Request POST (_renewURL (Domain (c d)))
       (url.Set_ "appid" (model.AppID ins) (newParams (c d)))].
Proof.
  unfold renew. destruct reply as [e|Code msg]; simpl; [done|].
  by destruct (bool_decide (Code = 0)).
Qed.

Lemma renew_after d ins reply : after (renew d ins reply) = d.
Proof.
  unfold renew. destruct reply as [e|Code msg]; simpl; [done|].
  by destruct (bool_decide (Code = 0)).
Qed.

Lemma renew_ret d ins reply :
  ret (renew d ins reply)
  = match reply with
    | NetErr e => Some e
    | Res Code _ => if bool_decide (Code = 0) then None else Some (errors.Int Code)
    end.
Proof.
  unfold renew. destruct reply as [e|Code msg]; simpl; [done|].
  by destruct (bool_decide (Code = 0)).
Qed.

Lemma cancel_sent d ins reply :
  sent (cancel d ins reply)
  = [Request POST (_cancelURL (Domain (c d)))
       (url.Set_ "appid" (model.AppID ins) (newParams (c d)))].
Proof.
  unfold cancel. destruct reply as [e|Code msg]; simpl; [done|].
  by destruct (bool_decide (Code = 0)).
Qed.

Lemma cancel_after d ins reply : after (cancel d ins reply) = d.
Proof.
  unfold cancel. destruct reply as [e|Code msg]; simpl; [done|].
  by destruct (bool_decide (Code = 0)).
Qed.

(** X6.  A tick of the renew task posts one renewal, for the configured zone,
    environment and host, and registers the instance again exactly when the
    server answers the renewal with [NothingFound] (-404): on any other
    answer, and on an error of the transport that is not that code,
    nothing follows the renewal.  The client is left as it was. *)
Theorem renew_tick_registers_again_iff_NothingFound (d : Discovery)
    (ins : Instance) (renew_reply register_reply : Reply string) :
  let e := renew_tick d ins renew_reply register_reply in
  after e = d
  ∧ (∃ rq, head (sent e) = Some rq
       ∧ req_uri rq = "http://" +:+ Domain (c d) +:+ "/discovery/renew"
       ∧ url.Get "appid" (req_params rq) = Some (model.AppID ins)
       ∧ url.Get "zone" (req_params rq) = Some (Zone (c d))
       ∧ url.Get "env" (req_params rq) = Some (Env (c d))
       ∧ url.Get "hostname" (req_params rq) = Some (Host (c d)))
  ∧ ((∃ body, renew_reply = Res (-404) body) →
       sent e = (sent (renew d ins renew_reply)
                 ++ sent (register d ins register_reply))%list)
  ∧ ((∀ body, renew_reply ≠ Res (-404) body) →
       renew_reply ≠ NetErr (ECode (-404)) →
       sent e = sent (renew d ins renew_reply)).
Proof.
  intros e. subst e. unfold naming.renew_tick.
  rewrite renew_ret, renew_after, renew_sent.
  set (rq := Request POST (_renewURL (Domain (c d)))
               (url.Set_ "appid" (model.AppID ins) (newParams (c d)))).
  assert (Hform : req_uri rq = "http://" +:+ Domain (c d) +:+ "/discovery/renew"
            ∧ url.Get "appid" (req_params rq) = Some (model.AppID ins)
            ∧ url.Get "zone" (req_params rq) = Some (Zone (c d))
            ∧ url.Get "env" (req_params rq) = Some (Env (c d))
            ∧ url.Get "hostname" (req_params rq) = Some (Host (c d))).
  { subst rq. simpl. unfold newParams.
    repeat split; repeat first [ done | rewrite Get_Set_eq | rewrite Get_Set_ne ]. }
  destruct renew_reply as [[code| |]|Code msg]; simpl;
    repeat case_bool_decide; simpl; repeat case_bool_decide; simpl;
    rewrite ?register_after.
  all: (split; [done|]); (split; [by exists rq|]).
  all: split.
  all: try done.
  all: try (intros [body Hbody]; by simplify_eq).
  all: try (intros Hne Hnet; by simplify_eq).
  intros Hne _. subst Code. by destruct (Hne msg).
Qed.

(** X7.  Registering, then calling the cancel function: the context of the renew
    task is cancelled, the task posts one cancellation and ends, but the
    app id stays in the registry, so that registering the instance again is
    refused as a duplicate. *)
Theorem cancelFunc_keeps_registry (d : Discovery) (ins : Instance)
    (msg : string) (cancel_reply reply' : Reply string) :
  model.AppID ins ∉ registry d →
  let k := next_ctx d in
  let d1 := after (Register d ins (Res 0 msg)) in
  let e := cancelFunc d1 k ins cancel_reply in
  ctx_Err (after e) k = true
  ∧ (∃ rq, sent e = [rq]
       ∧ req_uri rq = "http://" +:+ Domain (c d) +:+ "/discovery/cancel"
       ∧ url.Get "appid" (req_params rq) = Some (model.AppID ins)
       ∧ url.Get "hostname" (req_params rq) = Some (Host (c d)))
  ∧ (∀ i, (k, i) ∉ renewals (after e))
  ∧ registry (after e) = {[model.AppID ins]} ∪ registry d
  ∧ ret (Register (after e) ins reply') = (None, Some EDuplication).
Proof.
  intros Hnew k d1 e.
  assert (Hd1 : d1 = set_renewals ((k, ins) :: renewals d)
                       (set_next_ctx (S k)
                          (set_registry ({[model.AppID ins]} ∪ registry d) d))).
  { subst d1. unfold naming.Register. by rewrite bool_decide_eq_false_2. }
  subst e. unfold cancelFunc, renew_done. rewrite cancel_after, cancel_sent.
  rewrite Hd1. simpl. split; [|split; [|split; [|split]]].
  - unfold ctx_Err. simpl. rewrite bool_decide_eq_true_2
      by (apply elem_of_union; left; by apply elem_of_singleton).
    apply orb_true_r.
  - eexists. split; [done|]. simpl. unfold newParams.
    repeat split; repeat first [ done | rewrite Get_Set_eq | rewrite Get_Set_ne ].
  - intros i Hin. apply list_elem_of_filter in Hin as [Hne _]. by apply Hne.
  - done.
  - unfold naming.Register. simpl. rewrite bool_decide_eq_true_2; [done|].
    apply elem_of_union; left; by apply elem_of_singleton.
Qed.

(** ** More on Watch, Unwatch, Close and the configuration *)


(** X9.  [Watch] of an app that is not watched yet makes a new event channel,
    with room for one value, empty and open; the app has no snapshot and
    the baseline 0; the poll in flight, if there is one, is cancelled; the
    other apps are not touched.  [Watch] of an app that is watched cancels
    nothing. *)
Theorem Watch_new_app_cancels_poll (d : Discovery) (appID : string) :
  (apps d !! appID = None →
     (Watch d appID).1 = length (chans d)
     ∧ chans (Watch d appID).2 !! (Watch d appID).1
       = Some {| buffered := 0; capacity := 1; closed := false |}
     ∧ apps (Watch d appID).2 !! appID
       = Some {| event := length (chans d); zoneIns := None; lastTs := 0 |}
     ∧ (∀ k, k ≠ appID → apps (Watch d appID).2 !! k = apps d !! k)
     ∧ (∀ k, cancelPolls d = Some k → ctx_Err (Watch d appID).2 k = true)
     ∧ once (Watch d appID).2 = true)
  ∧ (is_Some (apps d !! appID) →
     canceled (Watch d appID).2 = canceled d
     ∧ chans (Watch d appID).2 = chans d).
Proof.
  split.
  - intros Hnew. unfold Watch, make_chan. rewrite Hnew. cbn.
    destruct (cancelPolls d) as [k0|] eqn:Hk0; cbn.
    + repeat split.
      * rewrite lookup_app_r by done. by rewrite Nat.sub_diag.
      * apply lookup_insert_eq.
      * intros k Hk. by rewrite lookup_insert_ne.
      * intros k [= <-]. unfold ctx_Err. cbn.
        rewrite bool_decide_eq_true_2
          by (apply elem_of_union; left; by apply elem_of_singleton). apply orb_true_r.
    + repeat split.
      * rewrite lookup_app_r by done. by rewrite Nat.sub_diag.
      * apply lookup_insert_eq.
      * intros k Hk. by rewrite lookup_insert_ne.
      * done.
  - intros [app Happ]. by rewrite (Watch_watched _ _ _ Happ).
Qed.

Lemma fill_empty_idem (x y : string) :
  (if bool_decide ((if bool_decide (x = "") then y else x) = "") then y
   else if bool_decide (x = "") then y else x)
  = (if bool_decide (x = "") then y else x).
Proof.
  destruct (decide (x = "")) as [Hx|Hx].
  - rewrite (bool_decide_eq_true_2 _ Hx). by destruct (bool_decide (y = "")).
  - rewrite !(bool_decide_eq_false_2 _ Hx). by rewrite ?(bool_decide_eq_false_2 _ Hx).
Qed.

(** X10.  [fixConfig] keeps the domain and every field that is set, and changes
    nothing when it is applied again, whatever the environment holds; the
    configuration of a new client and of a reloaded one went through it,
    and [Reload] touches neither the watches nor the registry. *)
Theorem fixConfig_fills_once (cfg : Config) :
  Domain (fixConfig cfg) = Domain cfg
  ∧ (Zone cfg ≠ "" → Zone (fixConfig cfg) = Zone cfg)
  ∧ (Env cfg ≠ "" → Env (fixConfig cfg) = Env cfg)
  ∧ (Host cfg ≠ "" → Host (fixConfig cfg) = Host cfg)
  ∧ fixConfig (fixConfig cfg) = fixConfig cfg
  ∧ c (New cfg) = fixConfig cfg
  ∧ ∀ d, c (Reload d cfg) = fixConfig cfg ∧ apps (Reload d cfg) = apps d
         ∧ registry (Reload d cfg) = registry d.
Proof.
  split; [done|].
  split; [intros H; simpl; by rewrite bool_decide_eq_false_2|].
  split; [intros H; simpl; by rewrite bool_decide_eq_false_2|].
  split; [intros H; simpl; by rewrite bool_decide_eq_false_2|].
  split; [|done]. unfold naming.fixConfig. simpl.
  by rewrite !fill_empty_idem.
Qed.

(** ** More on polls and broadcast *)

Lemma polls_ret_no_apps d host reply :
  apps d = ∅ → ret (polls d host reply) = (∅, None).
Proof.
  intros Hempty. unfold naming.polls.
  set (changed := bool_decide (host ≠ lastHost d)).
  assert (Hd : apps (if changed then set_lastHost host d else d) = apps d)
    by by destruct changed.
  rewrite Hd, polls_loop. simpl. rewrite length_fmap, length_range.
  rewrite bool_decide_eq_true_2; [done|]. rewrite Hempty. apply map_size_empty.
Qed.

Lemma polls_ret_NetErr d host e :
  apps d ≠ ∅ → ret (polls d host (NetErr e)) = (∅, Some e).
Proof.
  intros Hne. unfold naming.polls.
  set (changed := bool_decide (host ≠ lastHost d)).
  assert (Hd : apps (if changed then set_lastHost host d else d) = apps d)
    by by destruct changed.
  rewrite Hd, polls_loop. simpl. rewrite length_fmap, length_range.
  rewrite bool_decide_eq_false_2; [done|].
  intros He. apply Hne. by apply map_size_empty_iff.
Qed.

(** X11.  With no app watched, [polls] sends nothing and returns neither data nor
    an error; it still records the host as the last one polled. *)
Theorem polls_without_watch (d : Discovery) (host : string)
    (reply : Reply (gmap string appData)) :
  apps d = ∅ →
  sent (polls d host reply) = []
  ∧ ret (polls d host reply) = (∅, None)
  ∧ lastHost (after (polls d host reply)) = host
  ∧ apps (after (polls d host reply)) = ∅.
Proof.
  intros Hempty. split; [|split; [|split]].
  - pose proof (polls_sent d host reply) as Hs. simpl in Hs. rewrite Hs.
    by rewrite bool_decide_eq_true_2.
  - by apply polls_ret_no_apps.
  - rewrite polls_after. simpl. case_bool_decide as Hh; [done|].
    simpl. destruct (decide (host = lastHost d)); [done|]. by destruct Hh.
  - rewrite polls_after. simpl. rewrite Hempty. apply fmap_empty.
Qed.

Lemma set_apps_id d : set_apps (apps d) d = d.
Proof. by destruct d. Qed.

Lemma broadcast_empty d : broadcast d ∅ = d.
Proof.
  unfold naming.broadcast.
  assert (range _ (∅ : gmap string appData) = []) as -> by by apply range_nil.
  done.
Qed.

(** X12.  A poll of the host polled last that the server answers with
    [NotModified] (-304) is a silent success: one request is sent, neither
    data nor an error is returned, and the client, after the poll and after
    the broadcast of what it returned, is exactly what it was. *)
Theorem polls_not_modified_is_silent (d : Discovery)
    (body : gmap string appData) :
  apps d ≠ ∅ →
  let e := polls d (lastHost d) (Res (-304) body) in
  ret e = (∅, None)
  ∧ after e = d
  ∧ broadcast (after e) (ret e).1 = d
  ∧ ∃ rq, sent e = [rq].
Proof.
  intros Hne e. subst e.
  assert (Hafter : after (polls d (lastHost d) (Res (-304) body)) = d).
  { rewrite polls_after. simpl. rewrite bool_decide_eq_false_2 by (by intros []).
    unfold reset_lastTs. rewrite map_fmap_id. apply set_apps_id. }
  assert (Hret : ret (polls d (lastHost d) (Res (-304) body)) = (∅, None))
    by by rewrite polls_ret.
  rewrite Hret, Hafter. simpl. repeat split; [apply broadcast_empty|].
  pose proof (polls_sent d (lastHost d) (Res (-304) body)) as Hs. simpl in Hs.
  rewrite Hs. rewrite bool_decide_eq_false_2 by done. eauto.
Qed.

(** X13.  The query of [polls] pairs the apps and the baselines by position: the
    app ids are the watched apps, each once, and the timestamp at the
    position of an app is the baseline of that app, or 0 when the host is
    not the one polled last.  The environment and the host name are those
    of the configuration. *)
Theorem polls_pairs_by_position (d : Discovery) (host : string)
    (reply : Reply (gmap string appData)) (rq : request) :
  rq ∈ sent (polls d host reply) →
  let appids := default [] (req_params rq !! "appid") in
  let tss := default [] (req_params rq !! "latest_timestamp") in
  NoDup appids
  ∧ (∀ appID, appID ∈ appids ↔ is_Some (apps d !! appID))
  ∧ (∀ i appID, appids !! i = Some appID →
       ∃ app, apps d !! appID = Some app
         ∧ tss !! i = Some (FormatInt (if bool_decide (host ≠ lastHost d)
                                      then 0 else lastTs app)))
  ∧ req_uri rq = "http://" +:+ host +:+ "/discovery/polls"
  ∧ req_params rq !! "env" = Some [Env (c d)]
  ∧ req_params rq !! "hostname" = Some [Host (c d)].
Proof.
  intros Hrq. pose proof (polls_sent d host reply) as Hs. simpl in Hs.
  rewrite Hs in Hrq. clear Hs. case_bool_decide; [by apply elem_of_nil in Hrq|].
  apply list_elem_of_singleton in Hrq as ->. simpl.
  rewrite polls_params_timestamps, polls_params_appids.
  split; [apply NoDup_range_fst|]. split; [|split; [|split; [done|]]].
  - intros appID. rewrite list_elem_of_fmap. split.
    + intros ([k v] & -> & Hin). apply elem_of_range in Hin. eauto.
    + intros [v Hv]. exists (appID, v). split; [done|]. by apply elem_of_range.
  - intros i appID Hi. rewrite list_lookup_fmap in Hi.
    destruct (range _ (apps d) !! i) as [[k v]|] eqn:Hkv; [|done].
    injection Hi as <-. exists v. split.
    + apply elem_of_range. by eapply list_elem_of_lookup_2.
    + rewrite !list_lookup_fmap, Hkv. simpl. unfold reset_lastTs.
      by case_bool_decide.
  - unfold polls_params.
    rewrite !(foldl_Add_lookup_ne "latest_timestamp") by done.
    rewrite !(foldl_Add_lookup_ne "appid") by done.
    unfold url.Set_. split.
    + by rewrite lookup_insert_ne, lookup_insert_eq.
    + by rewrite lookup_insert_eq.
Qed.

Lemma same_but_apps_refl d : same_but_apps d d.
Proof. by repeat split. Qed.

Lemma same_but_apps_trans d1 d2 d3 :
  same_but_apps d1 d2 → same_but_apps d2 d3 → same_but_apps d1 d3.
Proof.
  unfold same_but_apps.
  intros (?&?&?&?&?&?&?&?&?&?) (?&?&?&?&?&?&?&?&?&?).
  repeat split; congruence.
Qed.

Lemma try_send_same ch d : same_but_apps d (try_send ch d).
Proof.
  unfold try_send. destruct (chans d !! ch); [|apply same_but_apps_refl].
  case_bool_decide; by repeat split.
Qed.

Lemma broadcast_visit_same d kv : same_but_apps d (broadcast_visit d kv).
Proof.
  destruct kv as [appID v]. rewrite broadcast_visit_eq.
  case_bool_decide; [apply same_but_apps_refl|].
  destruct (apps d !! appID); [|apply same_but_apps_refl].
  eapply same_but_apps_trans; [|apply try_send_same]. by repeat split.
Qed.

Lemma broadcast_same d data : same_but_apps d (broadcast d data).
Proof.
  unfold naming.broadcast. generalize (range _ data). intros l. revert d.
  induction l as [|kv l IH]; intros d; simpl; [apply same_but_apps_refl|].
  eapply same_but_apps_trans; [apply broadcast_visit_same|apply IH].
Qed.

(** X14.  [broadcast] changes the snapshot and the baseline of the watched apps
    that the data delivers with at least one instance, and of no other: it
    watches no app and forgets none, it leaves an app alone that the data
    does not mention or mentions with no instance, and it leaves the
    registry, the configuration, the last host and the [delete] channel as
    they are. *)
Theorem broadcast_changes_only_delivered_apps (d : Discovery)
    (data : gmap string appData) :
  dom (apps (broadcast d data)) = dom (apps d)
  ∧ (∀ appID, data !! appID = None →
       apps (broadcast d data) !! appID = apps d !! appID)
  ∧ (∀ appID v, data !! appID = Some v →
       (∀ zone ins, ZoneInstances v !! zone = Some ins → ins = []) →
       apps (broadcast d data) !! appID = apps d !! appID)
  ∧ (∀ appID app, apps (broadcast d data) !! appID = Some app →
       ∃ app0, apps d !! appID = Some app0 ∧ event app = event app0)
  ∧ same_but_apps d (broadcast d data).
Proof.
  assert (Hzero : ∀ appID v, data !! appID = Some v →
            (∀ zone ins, ZoneInstances v !! zone = Some ins → ins = []) →
            apps (broadcast d data) !! appID = apps d !! appID).
  { intros appID v Hv Hall. rewrite broadcast_lookup, Hv, broadcast_visit_eq.
    rewrite bool_decide_eq_true_2; [done|].
    apply count_instances_zero. intros zone ins Hin.
    apply elem_of_range in Hin. by apply (Hall zone). }
  assert (Hev : ∀ appID app, apps (broadcast d data) !! appID = Some app →
            ∃ app0, apps d !! appID = Some app0 ∧ event app = event app0).
  { intros appID app. rewrite broadcast_lookup.
    destruct (data !! appID) as [v|]; [|eauto].
    rewrite broadcast_visit_eq. case_bool_decide; [eauto|].
    destruct (apps d !! appID) as [app0|] eqn:Happ0; [|by rewrite Happ0].
    rewrite apps_try_send. simpl. rewrite lookup_insert_eq.
    intros [= <-]. eauto. }
  split; [|split; [|split; [done|split; [done|apply broadcast_same]]]].
  - apply set_eq. intros appID. rewrite !elem_of_dom. split.
    + intros [app Happ]. apply Hev in Happ as (app0 & -> & _). eauto.
    + intros [app0 Happ0]. rewrite broadcast_lookup.
      destruct (data !! appID) as [v|]; [|by rewrite Happ0].
      rewrite broadcast_visit_eq. case_bool_decide; [by rewrite Happ0|].
      rewrite Happ0, apps_try_send. simpl. rewrite lookup_insert_eq. eauto.
  - intros appID Hnone. by rewrite broadcast_lookup, Hnone.
Qed.

(** ** More on the server loop *)

Lemma ctx_Err_polls d host reply k :
  ctx_Err (after (polls d host reply)) k = ctx_Err d k.
Proof. rewrite polls_after. unfold ctx_Err. simpl. by case_bool_decide. Qed.

(** X15.  A poll that fails stores nothing.  Unless its context was cancelled,
    the loop moves on to the next node of the list, one step further in the
    round, and counts a retry; when the context was cancelled, by [Watch] or
    by [Close], the loop keeps the node and drops the context, so that the
    next iteration polls the same node with a new one. *)
Theorem poll_failure_fails_over (k : nat) (reply : Reply (gmap string appData))
    (p : proc rng) (d : Discovery) (rqs : list request) (host : string)
    (e : error) :
  p_nodes p !! Z.to_nat (idx p `mod` Z.of_nat (length (p_nodes p))) = Some host →
  (ret (polls d host reply)).2 = Some e →
  ∃ p' d',
    poll_and_broadcast k reply p d rqs
      = Next p' d' (rqs ++ sent (polls d host reply))%list
    ∧ (∀ appID, Fetch d' appID = Fetch d appID)
    ∧ p_nodes p' = p_nodes p
    ∧ (ctx_Err d k = false →
         idx p' = (idx p + 1) `mod` 2 ^ 64 ∧ retry p' = retry p + 1
         ∧ ctx p' = ctx p)
    ∧ (ctx_Err d k = true →
         idx p' = idx p ∧ retry p' = retry p ∧ ctx p' = None).
Proof.
  intros Hhost Herr. unfold naming.poll_and_broadcast. rewrite Hhost.
  destruct (ret (polls d host reply)) as [data [e'|]] eqn:Hret; [|done].
  rewrite ctx_Err_polls. destruct (ctx_Err d k) eqn:Hctx.
  - eexists _, _. split; [done|]. split; [intros; apply Fetch_polls|].
    by repeat split.
  - eexists _, _. split; [done|]. split; [intros; apply Fetch_polls|].
    by repeat split.
Qed.

Lemma nodes_ret d reply :
  ret (nodes d reply)
  = match reply with
    | NetErr _ => []
    | Res Code Data => if bool_decide (Code = 0) then Data else []
    end.
Proof.
  unfold nodes. destruct reply as [e|Code Data]; [done|]. simpl.
  case_bool_decide; simpl; [|done].
  case_bool_decide as Hlen; [|done]. simpl.
  symmetry. by apply length_zero_iff_nil.
Qed.

Lemma nodes_sent d reply :
  sent (nodes d reply) = [Request GET (_nodesURL (Domain (c d))) ∅]
  ∧ after (nodes d reply) = d.
Proof.
  unfold nodes. destruct reply as [e|Code Data]; [done|]. simpl.
  case_bool_decide; simpl; [|done]. by case_bool_decide.
Qed.

(** X16.  The server loop asks for the nodes only when it has none or the tick
    asked for a refresh; otherwise it sends nothing and keeps its list.
    When it asks and gets no node (an error of the transport, a code other
    than 0, or an empty list), it keeps the list it had, counts a retry and
    ends the iteration, and the request of the tick is dropped. *)
Theorem refresh_failure_keeps_nodes (reply : Reply (list string))
    (p : proc rng) (d : Discovery) :
  (p_nodes p ≠ [] → update p = false → refresh reply p d = Ok (false, p, d, []))
  ∧ (p_nodes p = [] ∨ update p = true →
     match reply with
     | NetErr _ => True
     | Res Code Data => Code ≠ 0 ∨ Data = []
     end →
     refresh reply p d
     = Ok (true, set_retry (retry p + 1) (set_update false p), d,
           [Request GET ("http://" +:+ Domain (c d) +:+ "/discovery/nodes") ∅])).
Proof.
  split.
  - intros Hne Hup. unfold naming.refresh. rewrite Hup.
    rewrite bool_decide_eq_false_2; [done|].
    intros Hlen. by apply length_zero_iff_nil in Hlen.
  - intros Hcond Hfail. unfold naming.refresh.
    assert (bool_decide (length (p_nodes p) = 0%nat) || update p = true) as ->.
    { destruct Hcond as [-> | ->]; [done|apply orb_true_r]. }
    destruct (nodes_sent d reply) as [Hs Ha].
    assert (Hret : ret (nodes d reply) = []).
    { rewrite nodes_ret. destruct reply as [|Code Data]; [done|].
      case_bool_decide; [|done]. by destruct Hfail. }
    rewrite Hret, Hs, Ha. done.
Qed.

(** X17.  After [Close] every context of the client reports that it is
    cancelled, and the server loop returns when it takes the [Done] case
    and cannot take the default one; before [Close] it cannot return. *)
Theorem Close_ends_server_loop (d : Discovery) (p : proc rng)
    (nodes_reply : Reply (list string))
    (polls_reply : Reply (gmap string appData)) :
  (∀ k, ctx_Err (Close d) k = true)
  ∧ (∃ d', serverproc_step CaseDone nodes_reply polls_reply p (Close d) = Return d'
           ∧ apps d' = apps d ∧ registry d' = registry d)
  ∧ serverproc_step CaseDefault nodes_reply polls_reply p (Close d) = NotReady
  ∧ (ctx_done d = false →
     serverproc_step CaseDone nodes_reply polls_reply p d = NotReady)
  ∧ (ctx_done d = false → ∀ sel d',
     serverproc_step sel nodes_reply polls_reply p d ≠ Return d').
Proof.
  split; [done|]. unfold naming.serverproc_step, ensure_ctx.
  split; [|split; [|split]].
  - destruct (ctx p); simpl; eauto.
  - by destruct (ctx p).
  - intros Hopen. destruct (ctx p); simpl; by rewrite Hopen.
  - intros Hopen sel d'.
    assert (Hgo : ∀ k x (p2 : proc rng) d2,
              match refresh nodes_reply p2 d2 with
              | Ok (true, p, d, rqs) => Next p d rqs
              | Ok (false, p, d, rqs) => poll_and_broadcast k polls_reply p d rqs
              | Panic msg => Panicked msg
              | OutOfFuel => NotReady
              end ≠ Return x).
    { intros k x p2 d2.
      destruct (refresh nodes_reply p2 d2) as [[[[b p3] d3] rqs]| |]; try done.
      destruct b; [done|].
      unfold naming.poll_and_broadcast.
      destruct (p_nodes p3 !! _); [|done].
      destruct (ret (polls d3 _ polls_reply)) as [? [?|]]; [|done].
      by destruct (ctx_Err _ k). }
    destruct (ctx p) as [k|]; simpl; destruct sel; simpl;
      rewrite ?Hopen; simpl; try done; try apply Hgo.
    + destruct (delete_ch d) as [|app rest]; [done|]. simpl.
      destruct (close_chan _ _) as [d2| |]; simpl; try done; apply Hgo.
    + destruct (bool_decide (delete_ch d ≠ [])); [done|]. apply Hgo.
    + destruct (delete_ch d) as [|app rest]; [done|]. simpl.
      destruct (close_chan _ _) as [d2| |]; simpl; try done; apply Hgo.
    + destruct (bool_decide (delete_ch d ≠ [])); [done|]. apply Hgo.
Qed.

(** ** The event channels *)

Lemma chan_open_lt d e : chan_open d e → (e < length (chans d))%nat.
Proof. intros (ch & Hch & _). by eapply lookup_lt_Some. Qed.

(** A step that keeps the events of the apps, the [delete] channel and the
    open channels keeps the invariant. *)
Lemma channels_ok_step d d' :
  (∀ k, event <$> (apps d' !! k) = event <$> (apps d !! k)) →
  delete_ch d' = delete_ch d →
  (∀ e, chan_open d e → chan_open d' e) →
  channels_ok d → channels_ok d'.
Proof.
  intros Hev Hdel Hopen (Happs & Hinj & Hd & Hnd & Hdis).
  assert (Hback : ∀ k app', apps d' !! k = Some app' →
            ∃ app, apps d !! k = Some app ∧ event app = event app').
  { intros k app' Hk. specialize (Hev k). rewrite Hk in Hev. simpl in Hev.
    destruct (apps d !! k) as [app|]; [|done]. injection Hev as Hev. eauto. }
  unfold channels_ok. rewrite Hdel. repeat split.
  - intros k app' Hk. apply Hback in Hk as (app & Hk & <-).
    apply Hopen. by eapply Happs.
  - intros k1 k2 a1 a2 H1 H2 He.
    apply Hback in H1 as (b1 & H1 & E1). apply Hback in H2 as (b2 & H2 & E2).
    apply (Hinj k1 k2 b1 b2); [done..|congruence].
  - intros app Hin. apply Hopen. by apply Hd.
  - done.
  - intros k app' Hk. apply Hback in Hk as (app & Hk & <-). by eapply Hdis.
Qed.

Lemma channels_ok_same d d' :
  apps d' = apps d → chans d' = chans d → delete_ch d' = delete_ch d →
  channels_ok d → channels_ok d'.
Proof.
  intros Ha Hc Hd. apply channels_ok_step; [by rewrite Ha|done|].
  intros e (ch & ? & ?). exists ch. by rewrite Hc.
Qed.

Lemma channels_ok_New cfg : channels_ok (New cfg).
Proof.
  unfold channels_ok. simpl.
  split; [intros k app H; by rewrite lookup_empty in H|].
  split; [intros k1 k2 a1 a2 H; by rewrite lookup_empty in H|].
  split; [intros app H; by apply elem_of_nil in H|].
  split; [apply NoDup_nil_2|].
  intros k app H. by rewrite lookup_empty in H.
Qed.

Lemma chan_open_app d e ch :
  chan_open d e → chan_open (set_chans (chans d ++ [ch]) d) e.
Proof.
  intros (c0 & Hc0 & ?). exists c0. split; [|done]. simpl.
  rewrite lookup_app_l; [done|]. by eapply lookup_lt_Some.
Qed.

Lemma channels_ok_Watch d appID :
  channels_ok d → channels_ok (Watch d appID).2.
Proof.
  intros Hok. unfold Watch. destruct (apps d !! appID) as [app|] eqn:Happ.
  - by apply (channels_ok_same d).
  - destruct Hok as (Happs & Hinj & Hd & Hnd & Hdis).
    set (ev := length (chans d)).
    set (app := {| event := ev; zoneIns := None; lastTs := 0 |}).
    set (d1 := set_apps (<[appID := app]> (apps d))
                 (set_chans (chans d ++ [{| buffered := 0; capacity := 1;
                                            closed := false |}]) d)).
    assert (Hd1 : channels_ok d1).
    { assert (Hnew : chan_open d1 ev).
      { exists {| buffered := 0; capacity := 1; closed := false |}.
        split; [|by repeat split; simpl; lia]. simpl. unfold ev.
        rewrite lookup_app_r by done. by rewrite Nat.sub_diag. }
      assert (Hold : ∀ e, chan_open d e → chan_open d1 e).
      { intros e (c0 & Hc0 & ?). exists c0. split; [|done]. simpl.
        rewrite lookup_app_l; [done|]. by eapply lookup_lt_Some. }
      repeat split.
      - intros k a Hk. simpl in Hk.
        apply lookup_insert_Some in Hk as [[_ <-]|[_ Hk]]; [done|].
        apply Hold. by eapply Happs.
      - intros k1 k2 a1 a2 H1 H2 He. simpl in H1, H2.
        apply lookup_insert_Some in H1 as [[<- <-]|[Hn1 H1]];
          apply lookup_insert_Some in H2 as [[<- <-]|[Hn2 H2]]; try done.
        + apply Happs, chan_open_lt in H2. simpl in He. unfold ev in He. lia.
        + apply Happs, chan_open_lt in H1. simpl in He. unfold ev in He. lia.
        + by apply (Hinj k1 k2 a1 a2).
      - intros a Hin. apply Hold. by apply Hd.
      - done.
      - intros k a Hk. simpl in Hk. simpl.
        apply lookup_insert_Some in Hk as [[_ <-]|[_ Hk]]; [|by eapply Hdis].
        intros Hin. apply list_elem_of_fmap in Hin as (a & Hev & Hin).
        apply Hd, chan_open_lt in Hin. simpl in Hev. unfold ev in Hev. lia. }
    unfold make_chan. cbn. fold ev. fold app.
    destruct (cancelPolls d); by apply (channels_ok_same d1).
Qed.

Lemma channels_ok_Unwatch d appID :
  channels_ok d → channels_ok (Unwatch d appID).
Proof.
  intros Hok. unfold Unwatch. destruct (apps d !! appID) as [app|] eqn:Happ;
    [|done].
  destruct Hok as (Happs & Hinj & Hd & Hnd & Hdis).
  assert (Hopen : ∀ e, chan_open d e →
            chan_open (set_delete_ch (delete_ch d ++ [app])
                         (set_apps (delete appID (apps d)) d)) e) by done.
  repeat split; simpl.
  - intros k a Hk. apply lookup_delete_Some in Hk as [_ Hk].
    apply Hopen. by eapply Happs.
  - intros k1 k2 a1 a2 H1 H2.
    apply lookup_delete_Some in H1 as [_ H1].
    apply lookup_delete_Some in H2 as [_ H2]. by apply (Hinj k1 k2).
  - intros a Hin. apply elem_of_app in Hin as [Hin|Hin].
    + apply Hopen. by apply Hd.
    + apply list_elem_of_singleton in Hin as ->. apply Hopen. by eapply Happs.
  - rewrite fmap_app. apply NoDup_app. split; [done|]. split.
    + intros e He Hin. apply list_elem_of_singleton in Hin as ->.
      by apply (Hdis appID app).
    + apply NoDup_singleton.
  - intros k a Hk. apply lookup_delete_Some in Hk as [Hne Hk].
    rewrite fmap_app. intros Hin. apply elem_of_app in Hin as [Hin|Hin].
    + by apply (Hdis k a).
    + apply list_elem_of_singleton in Hin. apply Hne. symmetry.
      by apply (Hinj k appID a app).
Qed.

Lemma channels_ok_polls d host reply :
  channels_ok d → channels_ok (after (polls d host reply)).
Proof.
  apply channels_ok_step.
  - intros k. rewrite polls_after. simpl. rewrite lookup_fmap.
    assert (Hd : apps (if bool_decide (host ≠ lastHost d)
                       then set_lastHost host d else d) = apps d)
      by by case_bool_decide.
    destruct (apps d !! k) as [a|]; simpl; [|done].
    unfold reset_lastTs. by case_bool_decide.
  - rewrite polls_after. simpl. by case_bool_decide.
  - intros e (ch & Hch & ?). exists ch. split; [|done].
    rewrite polls_after. simpl. by case_bool_decide.
Qed.

Lemma chan_open_try_send d ch e : chan_open d e → chan_open (try_send ch d) e.
Proof.
  intros (c0 & Hc0 & Hcl & Hcap & Hbuf). unfold try_send.
  destruct (chans d !! ch) as [c1|] eqn:Hc1; [|by exists c0].
  case_bool_decide as Hroom; [|by exists c0].
  destruct (decide (ch = e)) as [->|Hne].
  - rewrite Hc0 in Hc1. injection Hc1 as <-. eexists. split.
    + simpl. apply list_lookup_insert_eq. by eapply lookup_lt_Some.
    + simpl. repeat split; [done..|lia].
  - exists c0. split; [|done]. simpl. by rewrite list_lookup_insert_ne.
Qed.

Lemma channels_ok_broadcast_visit d kv :
  channels_ok d → channels_ok (broadcast_visit d kv).
Proof.
  destruct kv as [appID v]. rewrite broadcast_visit_eq.
  case_bool_decide; [done|].
  destruct (apps d !! appID) as [app|] eqn:Happ; [|done].
  apply channels_ok_step.
  - intros k. rewrite apps_try_send. simpl.
    destruct (decide (k = appID)) as [->|Hne].
    + by rewrite lookup_insert_eq, Happ.
    + by rewrite lookup_insert_ne.
  - by destruct (try_send_same (event app)
                  (set_apps (<[appID := {| event := event app;
                                           zoneIns := Some (pruned v);
                                           lastTs := LastTs v |}]> (apps d)) d))
      as (_&_&_&_&_&_&?&_).
  - intros e He. by apply chan_open_try_send.
Qed.

Lemma channels_ok_broadcast d data :
  channels_ok d → channels_ok (broadcast d data).
Proof.
  unfold naming.broadcast. generalize (range _ data). intros l. revert d.
  induction l as [|kv l IH]; intros d Hok; simpl; [done|].
  by apply IH, channels_ok_broadcast_visit.
Qed.

(** X18.  The operations of the callers, polls and broadcasts keep the event
    channels in use open and different from one another: the channel of a
    watched app, and one that waits to be closed, is never a closed one and
    never that of another app. *)
Theorem operations_keep_channels_open (d : Discovery) :
  (∀ cfg, channels_ok (New cfg))
  ∧ (channels_ok d →
     (∀ appID, channels_ok (Watch d appID).2)
     ∧ (∀ appID, channels_ok (Unwatch d appID))
     ∧ (∀ ins reply, channels_ok (after (Register d ins reply)))
     ∧ (∀ cfg, channels_ok (Reload d cfg))
     ∧ channels_ok (Close d)
     ∧ (∀ host reply, channels_ok (after (polls d host reply)))
     ∧ (∀ data, channels_ok (broadcast d data))).
Proof.
  split; [apply channels_ok_New|]. intros Hok.
  split; [intros; by apply channels_ok_Watch|].
  split; [intros; by apply channels_ok_Unwatch|].
  split.
  { intros ins reply.
    assert (Hframe : chans (after (Register d ins reply)) = chans d
                     ∧ delete_ch (after (Register d ins reply)) = delete_ch d).
    { unfold naming.Register. case_bool_decide; [done|].
      unfold WithCancel. cbn zeta. cbn beta iota.
      destruct (ret (register _ ins reply)); by rewrite register_after. }
    destruct Hframe. by apply (channels_ok_same d); [apply apps_Register|..]. }
  split; [intros; by apply (channels_ok_same d)|].
  split; [by apply (channels_ok_same d)|].
  split; [intros; by apply channels_ok_polls|].
  intros. by apply channels_ok_broadcast.
Qed.

Lemma refresh_inv reply p d b p' d' rqs :
  refresh reply p d = Ok (b, p', d', rqs) →
  d' = d ∧ idx p' = idx p ∧ (b = false → p_nodes p' ≠ []).
Proof.
  intros Hr. destruct (nodes_sent d reply) as [_ Ha].
  destruct b.
  - unfold naming.refresh in Hr.
    destruct (bool_decide (length (p_nodes p) = 0%nat) || update p); [|done].
    destruct (bool_decide (length (ret (nodes d reply)) = 0%nat)).
    + injection Hr as <- <- _. by rewrite Ha.
    + destruct (shuffle_nodes (ret (nodes d reply))
                  (r (set_retry 0 (set_update false p)))) as (g' & l' & Hs & _).
      rewrite Hs in Hr. done.
  - destruct (refresh_nodes _ _ _ _ _ _ Hr) as [Hne Hidx].
    split; [|done]. unfold naming.refresh in Hr.
    destruct (bool_decide (length (p_nodes p) = 0%nat) || update p);
      [|by injection Hr as _ <- _].
    destruct (bool_decide (length (ret (nodes d reply)) = 0%nat)); [done|].
    destruct (shuffle_nodes (ret (nodes d reply))
                (r (set_retry 0 (set_update false p)))) as (g' & l' & Hs & _).
    rewrite Hs in Hr. simpl in Hr. injection Hr as _ <- _. by rewrite Ha.
Qed.

(** What is left of an iteration after the [select], on a client whose
    channels are in order: it goes round again, and keeps them in order. *)
Lemma iteration_tail_ok k nodes_reply polls_reply (p : proc rng) d :
  channels_ok d → 0 ≤ idx p →
  ∃ p' d' rqs,
    match refresh nodes_reply p d with
    | Ok (true, p, d, rqs) => Next p d rqs
    | Ok (false, p, d, rqs) => poll_and_broadcast k polls_reply p d rqs
    | Panic msg => Panicked msg
    | OutOfFuel => NotReady
    end = Next p' d' rqs
    ∧ channels_ok d' ∧ 0 ≤ idx p'.
Proof.
  intros Hok Hidx.
  destruct (refresh_returns nodes_reply p d) as ([[[b p3] d3] rqs] & Hr).
  rewrite Hr. apply refresh_inv in Hr as (-> & Hidx3 & Hne).
  destruct b; [exists p3, d, rqs; split; [done|]; split; [done|lia]|].
  specialize (Hne eq_refl). unfold naming.poll_and_broadcast.
  assert (Hlen : (0 < length (p_nodes p3))%nat)
    by (destruct (p_nodes p3); [done|simpl; lia]).
  pose proof (Z.mod_pos_bound (idx p3) (Z.of_nat (length (p_nodes p3)))
                ltac:(lia)).
  destruct (lookup_lt_is_Some_2 (p_nodes p3)
              (Z.to_nat (idx p3 `mod` Z.of_nat (length (p_nodes p3)))))
    as [host ->]; [lia|].
  pose proof (channels_ok_polls d host polls_reply Hok) as Hok'.
  destruct (ret (polls d host polls_reply)) as [data [e|]].
  - destruct (ctx_Err _ k).
    + eexists _, _, _. split; [done|]. split; [done|]. simpl. lia.
    + eexists _, _, _. split; [done|]. split; [done|]. simpl.
      apply Z.mod_pos_bound. lia.
  - eexists _, _, _. split; [done|].
    split; [by apply channels_ok_broadcast|]. simpl. lia.
Qed.

(** Closing the channel of the app that waits first in the [delete]
    channel. *)
Lemma close_first_deleted d app rest :
  channels_ok d → delete_ch d = app :: rest →
  ∃ d', close_chan (event app) (set_delete_ch rest d) = Ok d'
    ∧ channels_ok d' ∧ apps d' = apps d ∧ delete_ch d' = rest
    ∧ (∃ ch, chans d' !! event app = Some ch ∧ closed ch = true)
    ∧ (∀ e, e ≠ event app → chans d' !! e = chans d !! e).
Proof.
  intros (Happs & Hinj & Hd & Hnd & Hdis) Hdel.
  rewrite Hdel in Hd, Hnd, Hdis. rewrite fmap_cons in Hnd, Hdis.
  apply NoDup_cons in Hnd as [Hfirst Hnd].
  destruct (Hd app) as (ch & Hch & Hcl & Hcap & Hbuf); [left|].
  unfold close_chan. simpl. rewrite Hch, Hcl. eexists. split; [done|].
  assert (Hkeep : ∀ e, e ≠ event app →
            chan_open d e →
            chan_open (set_chans (<[event app := {| buffered := buffered ch;
                                                   capacity := capacity ch;
                                                   closed := true |}]> (chans d))
                         (set_delete_ch rest d)) e).
  { intros e Hne (c0 & Hc0 & ?). exists c0. split; [|done]. simpl.
    by rewrite list_lookup_insert_ne. }
  split; [|split; [done|split; [done|split]]].
  - unfold channels_ok. simpl. split; [|split; [done|split; [|split; [done|]]]].
    + intros k a Hk. apply Hkeep; [|by eapply Happs].
      intros He. apply (Hdis k a Hk). rewrite He. left.
    + intros a Hin. apply Hkeep; [|apply Hd; by right].
      intros He. apply Hfirst. rewrite <- He. by apply list_elem_of_fmap_2.
    + intros k a Hk Hin. apply (Hdis k a Hk). by right.
  - exists {| buffered := buffered ch; capacity := capacity ch; closed := true |}.
    split; [|done]. simpl. apply list_lookup_insert_eq.
    by eapply lookup_lt_Some.
  - intros e Hne. simpl. by rewrite list_lookup_insert_ne.
Qed.

(** X19.  On a client whose event channels are in order, an iteration of the
    server loop never panics: it closes no channel twice, and indexes no
    node out of range.  It leaves the channels in order, so that this holds
    for every iteration that follows. *)
Theorem serverproc_step_never_panics (sel : select_case)
    (nodes_reply : Reply (list string))
    (polls_reply : Reply (gmap string appData)) (p : proc rng)
    (d : Discovery) :
  channels_ok d → 0 ≤ idx p →
  match serverproc_step sel nodes_reply polls_reply p d with
  | Next p' d' _ => channels_ok d' ∧ 0 ≤ idx p'
  | Return d' => channels_ok d'
  | Panicked _ => False
  | NotReady => True
  end.
Proof.
  intros Hok Hidx. unfold naming.serverproc_step.
  destruct (ensure_ctx p d) as [[k p1] d1] eqn:Hctx.
  assert (H1 : channels_ok d1 ∧ idx p1 = idx p).
  { unfold ensure_ctx in Hctx. destruct (ctx p); injection Hctx as <- <- <-;
      (split; [|done]); [by apply (channels_ok_same d)|done]. }
  destruct H1 as [Hok1 Hidx1].
  assert (Htail : ∀ (p2 : proc rng) d2, channels_ok d2 → idx p2 = idx p →
            match
              match refresh nodes_reply p2 d2 with
              | Ok (true, p, d, rqs) => Next p d rqs
              | Ok (false, p, d, rqs) => poll_and_broadcast k polls_reply p d rqs
              | Panic msg => Panicked msg
              | OutOfFuel => NotReady
              end
            with
            | Next p' d' _ => channels_ok d' ∧ 0 ≤ idx p'
            | Return d' => channels_ok d'
            | Panicked _ => False
            | NotReady => True
            end).
  { intros p2 d2 Hok2 Hidx2.
    destruct (iteration_tail_ok k nodes_reply polls_reply p2 d2)
      as (p' & d' & rqs & -> & ? & ?); [done|lia|done]. }
  destruct sel; simpl.
  - by destruct (ctx_done d1).
  - by apply Htail.
  - destruct (delete_ch d1) as [|app rest] eqn:Hdel; [done|].
    destruct (close_first_deleted d1 app rest Hok1 Hdel)
      as (d2 & -> & Hok2 & _). simpl. by apply Htail.
  - destruct (ctx_done d1 || bool_decide (delete_ch d1 ≠ [])); [done|].
    by apply Htail.
Qed.

(** X20.  [Watch] of an app that was unwatched gives a channel that was never
    given before, not the one of the earlier watch, which still waits to
    be closed; the app starts again with no snapshot and the baseline 0. *)
Theorem Watch_after_Unwatch_is_fresh (d : Discovery) (appID : string)
    (app : appInfo) :
  channels_ok d → apps d !! appID = Some app →
  let w := Watch (Unwatch d appID) appID in
  w.1 = length (chans d)
  ∧ w.1 ≠ event app
  ∧ (∀ k a, apps d !! k = Some a → w.1 ≠ event a)
  ∧ app ∈ delete_ch w.2
  ∧ apps w.2 !! appID = Some {| event := w.1; zoneIns := None; lastTs := 0 |}
  ∧ Fetch w.2 appID = (∅, false).
Proof.
  intros Hok Happ w.
  assert (Hfresh : ∀ k a, apps d !! k = Some a → length (chans d) ≠ event a).
  { intros k a Hk. destruct Hok as (Happs & _).
    apply Happs, chan_open_lt in Hk. lia. }
  assert (Hw : w = (length (chans d),
                    set_once true
                      (match cancelPolls d with
                       | Some k => cancel_ctx k
                       | None => λ x, x
                       end
                         (set_apps (<[appID := {| event := length (chans d);
                                                  zoneIns := None; lastTs := 0 |}]>
                                      (delete appID (apps d)))
                            (set_chans (chans d ++ [{| buffered := 0; capacity := 1;
                                                       closed := false |}])
                               (set_delete_ch (delete_ch d ++ [app])
                                  (set_apps (delete appID (apps d)) d))))))).
  { subst w. unfold Unwatch. rewrite Happ. unfold Watch. cbn [apps set_delete_ch set_apps].
    rewrite lookup_delete_eq. unfold make_chan. cbn.
    by destruct (cancelPolls d). }
  rewrite Hw. cbn [fst snd].
  split; [done|]. split; [by apply (Hfresh appID)|]. split; [done|].
  assert (Hfields : ∀ x, delete_ch (match cancelPolls d with
                                    | Some k => cancel_ctx k
                                    | None => λ x, x
                                    end x) = delete_ch x
                         ∧ apps (match cancelPolls d with
                                 | Some k => cancel_ctx k
                                 | None => λ x, x
                                 end x) = apps x)
    by (intros x; by destruct (cancelPolls d)).
  split; [|split].
  - cbn [delete_ch set_once]. rewrite (proj1 (Hfields _)). simpl.
    apply elem_of_app. right. left.
  - cbn [apps set_once]. rewrite (proj2 (Hfields _)). simpl.
    apply lookup_insert_eq.
  - unfold Fetch. cbn [apps set_once]. rewrite (proj2 (Hfields _)). simpl.
    by rewrite lookup_insert_eq.
Qed.

(** X21.  The [delete] case of the server loop closes the channel of the app
    that was unwatched first, takes it from the [delete] channel, and
    touches no other channel; in particular, after [Unwatch] of an app with
    nothing else waiting, it closes the channel that [Watch] gave for that
    app, and the channels of the apps still watched stay open. *)
Theorem delete_case_closes_unwatched (d : Discovery) (p : proc rng) :
  channels_ok d →
  (∀ app rest, delete_ch d = app :: rest →
     ∃ d', select CaseDelete p d = Some (Ok (Some (p, d')))
       ∧ (∃ ch, chans d' !! event app = Some ch ∧ closed ch = true)
       ∧ delete_ch d' = rest ∧ apps d' = apps d
       ∧ (∀ e, e ≠ event app → chans d' !! e = chans d !! e)
       ∧ channels_ok d')
  ∧ (∀ appID app, apps d !! appID = Some app → delete_ch d = [] →
     ∃ d', select CaseDelete p (Unwatch d appID) = Some (Ok (Some (p, d')))
       ∧ (∃ ch, chans d' !! event app = Some ch ∧ closed ch = true)
       ∧ delete_ch d' = [] ∧ apps d' = delete appID (apps d)
       ∧ (∀ k a, apps d' !! k = Some a → chan_open d' (event a))).
Proof.
  intros Hok. split.
  - intros app rest Hdel. unfold select. rewrite Hdel.
    destruct (close_first_deleted d app rest Hok Hdel)
      as (d' & -> & Hok' & Ha & Hd & Hcl & Hother).
    exists d'. split; [done|]. split; [done|]. split; [done|].
    split; [done|]. split; done.
  - intros appID app Happ Hempty.
    pose proof (channels_ok_Unwatch d appID Hok) as Hok1.
    assert (Hdel : delete_ch (Unwatch d appID) = [app]).
    { unfold Unwatch. rewrite Happ. simpl. by rewrite Hempty. }
    unfold select. rewrite Hdel.
    destruct (close_first_deleted _ app [] Hok1 Hdel)
      as (d' & -> & Hok' & Ha & Hd & Hcl & Hother).
    exists d'. split; [done|]. split; [done|]. split; [done|]. split.
    + rewrite Ha. unfold Unwatch. by rewrite Happ.
    + by destruct Hok' as (Happs' & _).
Qed.

Lemma try_send_other ch d e : e ≠ ch → chans (try_send ch d) !! e = chans d !! e.
Proof.
  intros Hne. unfold try_send. destruct (chans d !! ch); [|done].
  case_bool_decide; [|done]. simpl. by rewrite list_lookup_insert_ne.
Qed.

Lemma try_send_full d e :
  chan_open d e →
  ∃ ch, chans (try_send e d) !! e = Some ch ∧ buffered ch = 1%nat
        ∧ closed ch = false.
Proof.
  intros (c0 & Hc0 & Hcl & Hcap & Hbuf). unfold try_send. rewrite Hc0.
  case_bool_decide as Hroom.
  - eexists. split.
    + simpl. apply list_lookup_insert_eq. by eapply lookup_lt_Some.
    + simpl. split; [lia|done].
  - exists c0. split; [done|]. split; [lia|done].
Qed.

Lemma channels_ok_foldl l d :
  channels_ok d → channels_ok (foldl broadcast_visit d l).
Proof.
  revert d. induction l as [|kv l IH]; intros d Hok; cbn [foldl]; [done|].
  by apply IH, channels_ok_broadcast_visit.
Qed.

Lemma broadcast_visit_chans_other d k v appID app :
  channels_ok d → k ≠ appID → apps d !! appID = Some app →
  chans (broadcast_visit d (k, v)) !! event app = chans d !! event app.
Proof.
  intros (_ & Hinj & _) Hne Happ. rewrite broadcast_visit_eq.
  case_bool_decide; [done|].
  destruct (apps d !! k) as [a|] eqn:Hk; [|done].
  rewrite try_send_other; [done|].
  intros He. apply Hne. symmetry. by apply (Hinj appID k app a).
Qed.

Lemma broadcast_foldl_chans_other l d appID app :
  channels_ok d → appID ∉ l.*1 → apps d !! appID = Some app →
  chans (foldl broadcast_visit d l) !! event app = chans d !! event app
  ∧ apps (foldl broadcast_visit d l) !! appID = Some app.
Proof.
  revert d. induction l as [|[k v] l IH]; intros d Hok Hni Happ; cbn [foldl];
    [done|].
  simpl in Hni. apply not_elem_of_cons in Hni as [Hne Hni].
  destruct (IH (broadcast_visit d (k, v))) as [Hc Ha].
  - by apply channels_ok_broadcast_visit.
  - done.
  - rewrite broadcast_visit_other by done. done.
  - rewrite Hc, Ha. split; [|done].
    by apply (broadcast_visit_chans_other d k v appID app).
Qed.

(** X22.  On a client whose channels are in order, [broadcast] leaves exactly one
    value waiting in the event channel of a watched app that the data
    delivers with an instance, whether or not one was waiting already, and
    does not touch the channel of a watched app that the data does not
    mention or delivers with no instance. *)
Theorem broadcast_signals_once (d : Discovery) (data : gmap string appData)
    (appID : string) (app : appInfo) :
  channels_ok d → apps d !! appID = Some app →
  (∀ v, data !! appID = Some v →
     (∃ zone ins, ZoneInstances v !! zone = Some ins ∧ ins ≠ []) →
     ∃ ch, chans (broadcast d data) !! event app = Some ch
           ∧ buffered ch = 1%nat ∧ closed ch = false)
  ∧ (data !! appID = None →
     chans (broadcast d data) !! event app = chans d !! event app)
  ∧ (∀ v, data !! appID = Some v →
     (∀ zone ins, ZoneInstances v !! zone = Some ins → ins = []) →
     chans (broadcast d data) !! event app = chans d !! event app).
Proof.
  intros Hok Happ.
  assert (Hsplit : ∀ v, data !! appID = Some v →
            ∃ l1 l2, (range _ data = l1 ++ ((appID, v) :: l2))%list
                     ∧ (appID ∉ l1.*1) ∧ (appID ∉ l2.*1)).
  { intros v Hv. apply elem_of_range in Hv.
    pose proof (NoDup_range_fst data) as Hnd.
    apply list_elem_of_split in Hv as (l1 & l2 & Hl). rewrite Hl in Hnd.
    rewrite fmap_app, fmap_cons in Hnd. simpl in Hnd.
    apply NoDup_app in Hnd as (_ & Hl1 & Hnd).
    apply NoDup_cons in Hnd as [Hl2 _].
    exists l1, l2. split; [done|]. split; [|done].
    intros Hin. apply (Hl1 _ Hin). left. }
  split; [|split].
  - intros v Hv (zone & ins & Hzone & Hins).
    destruct (Hsplit v Hv) as (l1 & l2 & Hl & Hl1 & Hl2).
    unfold naming.broadcast. rewrite Hl, foldl_app. cbn [foldl].
    set (d1 := foldl broadcast_visit d l1).
    destruct (broadcast_foldl_chans_other l1 d appID app Hok Hl1 Happ)
      as [Hc1 Ha1]. fold d1 in Hc1, Ha1.
    assert (Hok1 : channels_ok d1).
    { subst d1. by apply channels_ok_foldl. }
    set (d2 := broadcast_visit d1 (appID, v)).
    assert (Hd2 : d2 = try_send (event app)
                    (set_apps (<[appID := {| event := event app;
                                             zoneIns := Some (pruned v);
                                             lastTs := LastTs v |}]> (apps d1)) d1)).
    { subst d2. rewrite broadcast_visit_eq, Ha1.
      rewrite bool_decide_eq_false_2; [done|].
      intros Hz. apply Hins.
      apply (proj1 (count_instances_zero _) Hz zone). by apply elem_of_range. }
    assert (Hopen1 : chan_open d1 (event app)).
    { destruct Hok1 as (Happs1 & _). by apply (Happs1 appID app). }
    destruct (try_send_full
                (set_apps (<[appID := {| event := event app;
                                         zoneIns := Some (pruned v);
                                         lastTs := LastTs v |}]> (apps d1)) d1)
                (event app)) as (ch & Hch & Hbuf & Hcl); [done|].
    rewrite <- Hd2 in Hch.
    assert (Hok2 : channels_ok d2) by (by apply channels_ok_broadcast_visit).
    assert (Ha2 : apps d2 !! appID
                  = Some {| event := event app; zoneIns := Some (pruned v);
                            lastTs := LastTs v |}).
    { rewrite Hd2, apps_try_send. simpl. apply lookup_insert_eq. }
    destruct (broadcast_foldl_chans_other l2 d2 appID _ Hok2 Hl2 Ha2)
      as [Hc3 _]. simpl in Hc3.
    exists ch. by rewrite Hc3.
  - intros Hnone. unfold naming.broadcast.
    apply (broadcast_foldl_chans_other _ d appID app Hok); [|done].
    intros Hin. apply list_elem_of_fmap in Hin as ([k v] & -> & Hin).
    apply elem_of_range in Hin. simpl in Hnone. congruence.
  - intros v Hv Hall.
    destruct (Hsplit v Hv) as (l1 & l2 & Hl & Hl1 & Hl2).
    unfold naming.broadcast. rewrite Hl, foldl_app. cbn [foldl].
    assert (Hid : ∀ d0, broadcast_visit d0 (appID, v) = d0).
    { intros d0. rewrite broadcast_visit_eq.
      rewrite bool_decide_eq_true_2; [done|].
      apply count_instances_zero. intros zone ins Hin.
      apply elem_of_range in Hin. by apply (Hall zone). }
    rewrite Hid, <- foldl_app.
    apply (broadcast_foldl_chans_other _ d appID app Hok); [|done].
    rewrite fmap_app. intros Hin. apply elem_of_app in Hin as [Hin|Hin]; done.
Qed.

(** ** The contexts *)

Lemma contexts_ok_same d d' :
  canceled d' = canceled d → cancelPolls d' = cancelPolls d →
  renewals d' = renewals d → next_ctx d' = next_ctx d →
  contexts_ok d → contexts_ok d'.
Proof.
  intros Hc Hp Hr Hn. unfold contexts_ok. by rewrite Hc, Hp, Hr, Hn.
Qed.

Lemma contexts_ok_cancel k d :
  (k < next_ctx d)%nat → contexts_ok d → contexts_ok (cancel_ctx k d).
Proof.
  intros Hk (Hc & Hp & Hr). split; [|split]; simpl; [|done..].
  intros k' Hin. apply elem_of_union in Hin as [Hin|Hin]; [|by apply Hc].
  apply elem_of_singleton in Hin. by subst.
Qed.

Lemma contexts_ok_Watch d appID : contexts_ok d → contexts_ok (Watch d appID).2.
Proof.
  intros Hok. unfold Watch. destruct (apps d !! appID); [done|].
  unfold make_chan. cbn. destruct (cancelPolls d) as [k|] eqn:Hk; [|done].
  apply (contexts_ok_same (cancel_ctx k d)); try done.
  apply contexts_ok_cancel; [|done]. destruct Hok as (_ & Hp & _). by apply Hp.
Qed.

Lemma contexts_ok_Register d ins reply :
  contexts_ok d → contexts_ok (after (Register d ins reply)).
Proof.
  intros Hok. unfold naming.Register. case_bool_decide; [done|].
  unfold WithCancel. cbn zeta. cbn beta iota.
  destruct Hok as (Hc & Hp & Hr).
  destruct (ret (register _ ins reply)); rewrite register_after.
  - split; [|split]; simpl.
    + intros k Hin. apply elem_of_union in Hin as [Hin|Hin].
      * apply elem_of_singleton in Hin. lia.
      * apply Hc in Hin. lia.
    + intros k Hk. apply Hp in Hk. lia.
    + intros k i Hin. apply Hr in Hin. lia.
  - split; [|split]; simpl.
    + intros k Hin. apply Hc in Hin. lia.
    + intros k Hk. apply Hp in Hk. lia.
    + intros k i Hin. apply elem_of_cons in Hin as [[= -> _]|Hin]; [lia|].
      apply Hr in Hin. lia.
Qed.

Lemma contexts_ok_cancelFunc d k ins reply :
  (k, ins) ∈ renewals d → contexts_ok d →
  contexts_ok (after (cancelFunc d k ins reply)).
Proof.
  intros Hin Hok. unfold cancelFunc, renew_done. rewrite cancel_after.
  assert (Hk : (k < next_ctx d)%nat)
    by (destruct Hok as (_ & _ & Hr); by apply (Hr k ins)).
  apply (contexts_ok_cancel k d Hk) in Hok as (Hc & Hp & Hr).
  split; [|split]; simpl; [done..|].
  intros k' i Hin'. apply list_elem_of_filter in Hin' as [_ Hin'].
  by apply (Hr k' i).
Qed.

(** X23.  The contexts the client hands out are never born cancelled.  As
    long as every context in use was made by the client, which [New]
    ensures and [Watch], [Unwatch], [Register], the cancel functions, polls
    and broadcasts keep, the context the server loop makes when it has
    none is cancelled only if the client was closed, and is the one
    [cancelPolls] cancels from then on; so is the context of the renew task
    that an accepted [Register] returns. *)
Theorem new_contexts_are_live (d : Discovery) :
  (∀ cfg, contexts_ok (New cfg))
  ∧ (contexts_ok d →
     (∀ appID, contexts_ok (Watch d appID).2)
     ∧ (∀ appID, contexts_ok (Unwatch d appID))
     ∧ (∀ ins reply, contexts_ok (after (Register d ins reply)))
     ∧ (∀ k ins reply, (k, ins) ∈ renewals d →
          contexts_ok (after (cancelFunc d k ins reply)))
     ∧ (∀ host reply, contexts_ok (after (polls d host reply)))
     ∧ (∀ data, contexts_ok (broadcast d data))
     ∧ (∀ p : proc rng, ctx p = None →
          ctx_Err (ensure_ctx p d).2 (ensure_ctx p d).1.1 = ctx_done d
          ∧ cancelPolls (ensure_ctx p d).2 = Some (ensure_ctx p d).1.1
          ∧ ctx (ensure_ctx p d).1.2 = Some (ensure_ctx p d).1.1
          ∧ contexts_ok (ensure_ctx p d).2)
     ∧ (∀ ins msg, model.AppID ins ∉ registry d →
          ctx_Err (after (Register d ins (Res 0 msg))) (next_ctx d)
          = ctx_done d)).
Proof.
  split.
  { intros cfg. split; [|split]; simpl; [|done|].
    - intros k Hin. by apply not_elem_of_empty in Hin.
    - intros k ins Hin. by apply elem_of_nil in Hin. }
  intros Hok. pose proof Hok as (Hc & Hp & Hr).
  assert (Hlive : bool_decide (next_ctx d ∈ canceled d) = false).
  { apply bool_decide_eq_false. intros Hin. apply Hc in Hin. lia. }
  split; [intros; by apply contexts_ok_Watch|].
  split.
  { intros appID. apply (contexts_ok_same d); try done;
      unfold Unwatch; by destruct (apps d !! appID). }
  split; [intros; by apply contexts_ok_Register|].
  split; [intros; by apply contexts_ok_cancelFunc|].
  split.
  { intros host reply. apply (contexts_ok_same d); try done;
      rewrite polls_after; simpl; by destruct (bool_decide (host ≠ lastHost d)). }
  split.
  { intros data.
    destruct (broadcast_same d data) as (_&_&_&_&_&?&_&?&?&?).
    by apply (contexts_ok_same d). }
  split.
  - intros p Hp0. unfold ensure_ctx. rewrite Hp0. unfold WithCancel. simpl.
    unfold ctx_Err. simpl. rewrite Hlive, orb_false_r.
    split; [done|]. split; [done|]. split; [done|].
    split; [|split]; simpl.
    + intros k Hin. apply Hc in Hin. lia.
    + intros k [= <-]. lia.
    + intros k i Hin. apply Hr in Hin. lia.
  - intros ins msg Hnew. unfold naming.Register.
    rewrite bool_decide_eq_false_2 by done. simpl.
    unfold ctx_Err. simpl. by rewrite Hlive, orb_false_r.
Qed.

End ClientProperties.

(** * The properties at concrete inputs *)

Section Scenarios.
Import example.

Lemma example_range_perm (A : Type) (m : gmap string A) : range A m ≡ₚ map_to_list m.
Proof. done. Qed.

Lemma example_draw_range (n g : Z) : 0 < n → 0 ≤ (draw n g).1 < n.
Proof. intros Hn. simpl. by apply Z.mod_pos_bound. Qed.

(** The scenarios of the specification, run. *)

Example first_poll_asks_from_zero :
  req_params <$> naming.sent (polls watching "n1" (Res 0 data1))
    = [ ({[ "env" := ["test"]; "hostname" := ["host-1"];
            "appid" := ["provider"]; "latest_timestamp" := ["0"] ]} : Values) ].
Proof. vm_compute. reflexivity. Qed.

Example first_poll_is_fetched :
  naming.Fetch polled "provider" = ({[ "sh1" := [provider] ]}, true).
Proof. vm_compute. reflexivity. Qed.

Example second_poll_asks_from_baseline :
  (λ rq, req_params rq !! "latest_timestamp")
    <$> naming.sent (polls polled "n1" (Res (-304) ∅)) = [Some ["100"]].
Proof. vm_compute. reflexivity. Qed.

Example other_host_asks_from_zero :
  (λ rq, req_params rq !! "latest_timestamp")
    <$> naming.sent (polls polled "n2" (Res (-304) ∅)) = [Some ["0"]].
Proof. vm_compute. reflexivity. Qed.

Example not_modified_keeps_snapshot :
  naming.ret (polls polled "n1" (Res (-304) ∅)) = (∅, None)
  ∧ naming.Fetch (naming.after (polls polled "n1" (Res (-304) ∅))) "provider"
    = ({[ "sh1" := [provider] ]}, true).
Proof. split; vm_compute; reflexivity. Qed.

Example Renew_of_peer_is_silent :
  registry.sent (registry.Renew (T:=string) peer provider (registry.PostRes 0 "")) = [].
Proof. reflexivity. Qed.

Example Register_of_peer_posts :
  (λ rq, (req_uri rq, req_params rq !! "replication"))
    <$> registry.sent (registry.Register (T:=string) marshal unmarshal peer provider
                         (registry.PostRes 0 ""))
  = [("http://10.0.0.2:7171/discovery/register", Some ["true"])].
Proof. vm_compute. reflexivity. Qed.

(** ** Witnesses *)

Lemma poll_then_broadcast_snapshot_witness :
  naming.snapshot_is polled "provider" 100 {[ "sh1" := [provider] ]}.
Proof.
  refine (proj2 (poll_then_broadcast_snapshot range example_range_perm
            ServerErrCode watching "n1" (Res 0 data1) data1 "provider" v1
            _ _ _ _) _).
  - eexists. vm_compute. reflexivity.
  - vm_compute. reflexivity.
  - vm_compute. reflexivity.
  - exists "sh1", [provider]. split; [vm_compute; reflexivity | discriminate].
  - intros zone ins. unfold v1. simpl. intros Hz.
    apply lookup_singleton_Some in Hz as [_ <-]. discriminate.
Defined.

Lemma polls_host_change_resets_witness :
  ∃ rq, naming.sent (polls polled "n2" (Res (-304) ∅)) = [rq]
        ∧ Forall (λ ts, ts = "0") (default [] (req_params rq !! "latest_timestamp")).
Proof.
  destruct (polls_host_change_resets range example_range_perm ServerErrCode
              polled "n2" (Res (-304) ∅)) as [Hall Hsent].
  - vm_compute. discriminate.
  - destruct Hsent as [rq Hrq].
    + intros Hempty. apply (f_equal size) in Hempty. vm_compute in Hempty.
      discriminate.
    + exists rq. split; [done|]. apply Hall. rewrite Hrq. left.
Defined.

Lemma polls_zero_LastTs_is_ServerErr_witness :
  naming.ret (polls watching "n1" (Res 0 data0))
  = (∅, Some (naming.ServerErr ServerErrCode)).
Proof.
  refine (proj1 (polls_zero_LastTs_is_ServerErr range example_range_perm
            ServerErrCode watching "n1" data0 _ _)).
  - intros Hempty. apply (f_equal size) in Hempty. vm_compute in Hempty.
    discriminate.
  - exists "provider", v0. split; [vm_compute; reflexivity | reflexivity].
Defined.

Lemma Register_duplicate_witness :
  naming.ret (naming.Register marshal registered provider (Res 0 ""))
  = (None, Some EDuplication).
Proof.
  refine (proj1 (Register_duplicate marshal registered provider (Res 0 "") _)).
  apply (bool_decide_unpack _). vm_compute. exact I.
Defined.

Lemma Fetch_not_ok_before_snapshot_witness :
  naming.Fetch watching "provider" = (∅, false).
Proof.
  destruct (Fetch_not_ok_before_snapshot getenv hostname marshal range
              example_range_perm ServerErrCode watching "provider")
    as (_ & _ & Hbb & _).
  apply Hbb. apply naming.bb_Watch, naming.bb_New.
Defined.

Lemma call_nonzero_code_witness :
  registry.data_out (registry.call marshal unmarshal peer model.Renew provider
                       (registry.renewURL peer) (Some "") (registry.PostRes (-409) "winner"))
  = Some "winner".
Proof.
  destruct (call_nonzero_code marshal unmarshal peer model.Renew provider
              (registry.renewURL peer) (Some "") (-409) "winner")
    as [Hconflict _].
  - lia.
  - apply Hconflict. reflexivity.
Defined.

Lemma shuffle_is_permutation_witness :
  ∃ g' l', naming.shuffle Z draw draw naming.swap_nodes 3 0 ["n1"; "n2"; "n3"]
           = Ok (g', l') ∧ l' ≡ₚ ["n1"; "n2"; "n3"].
Proof.
  destruct (shuffle_is_permutation Z draw draw example_draw_range example_draw_range)
    as (_ & _ & Hperm & _).
  apply (Hperm ["n1"; "n2"; "n3"] 0).
Defined.

Example shuffle_of_three :
  naming.shuffle Z draw draw naming.swap_nodes 3 0 ["n1"; "n2"; "n3"]
  = Ok (2, ["n3"; "n2"; "n1"]).
Proof. vm_compute. reflexivity. Qed.

(** ** Counterexamples *)

(** C2 as stated fails when the app of the reply has no instance: the poll
    succeeds, and the broadcast keeps the old baseline and the old
    snapshot. *)
Lemma poll_without_instances_keeps_snapshot :
  is_Some (naming.apps polled !! "provider")
  ∧ naming.ret (polls polled "n1" (Res 0 data2)) = (data2, None)
  ∧ data2 !! "provider" = Some v2
  ∧ ¬ naming.snapshot_is polled_again "provider"
        (naming.LastTs v2) (naming.ZoneInstances v2).
Proof.
  split; [eexists; vm_compute; reflexivity|].
  split; [vm_compute; reflexivity|].
  split; [vm_compute; reflexivity|].
  intros [(app & Happ & Hts) _]. vm_compute in Happ.
  injection Happ as <-. simpl in Hts. discriminate.
Qed.


(** ** Witnesses of the further properties *)

Lemma fresh_not_registered : model.AppID provider ∉ naming.registry fresh.
Proof. apply not_elem_of_empty. Qed.

Lemma watching_channels_ok : naming.channels_ok watching.
Proof. apply channels_ok_Watch, channels_ok_New. Qed.

Lemma watching_not_empty : naming.apps watching ≠ ∅.
Proof.
  intros Hempty. apply (f_equal size) in Hempty. vm_compute in Hempty.
  discriminate.
Qed.

Lemma polled_not_empty : naming.apps polled ≠ ∅.
Proof.
  intros Hempty. apply (f_equal size) in Hempty. vm_compute in Hempty.
  discriminate.
Qed.

Lemma Register_accepted_witness :
  naming.ret (naming.Register marshal fresh provider (Res 0 ""))
  = (Some 0%nat, None).
Proof.
  refine (proj1 (Register_accepted marshal fresh provider "" (Res 0 "") _)).
  apply fresh_not_registered.
Defined.

Lemma Register_refused_witness :
  naming.registry (naming.after (naming.Register marshal fresh provider (Res (-500) "")))
  = naming.registry fresh.
Proof.
  refine (proj1 (proj2 (Register_refused marshal fresh provider (Res (-500) "")
                          (ECode (-500)) _ _))).
  - apply fresh_not_registered.
  - vm_compute. reflexivity.
Defined.

Lemma cancelFunc_keeps_registry_witness :
  naming.ret (naming.Register marshal
                (naming.after (naming.cancelFunc registered 0 provider (Res 0 "")))
                provider (Res 0 ""))
  = (None, Some EDuplication).
Proof.
  refine (proj2 (proj2 (proj2 (proj2
            (cancelFunc_keeps_registry marshal fresh provider "" (Res 0 "")
               (Res 0 "") _))))).
  apply fresh_not_registered.
Defined.

Lemma polls_without_watch_witness :
  naming.sent (polls fresh "n1" (Res 0 data1)) = [].
Proof.
  refine (proj1 (polls_without_watch range example_range_perm ServerErrCode
                   fresh "n1" (Res 0 data1) _)).
  reflexivity.
Defined.

Lemma polls_not_modified_is_silent_witness :
  naming.after (polls polled (naming.lastHost polled) (Res (-304) ∅)) = polled.
Proof.
  refine (proj1 (proj2 (polls_not_modified_is_silent range example_range_perm
                          ServerErrCode polled ∅ _))).
  apply polled_not_empty.
Defined.

Lemma polls_pairs_by_position_witness :
  NoDup (default [] (req_params
                       (Request GET "http://n1/discovery/polls"
                          (naming.polls_params (naming.c polled) ["provider"] [100]))
                     !! "appid")).
Proof.
  refine (proj1 (polls_pairs_by_position range example_range_perm ServerErrCode
                   polled "n1" (Res (-304) ∅) _ _)).
  vm_compute. left.
Defined.

Lemma broadcast_changes_only_delivered_apps_witness :
  dom (naming.apps (broadcast watching data1)) = dom (naming.apps watching).
Proof.
  exact (proj1 (broadcast_changes_only_delivered_apps range example_range_perm
                  watching data1)).
Defined.

Lemma poll_failure_fails_over_witness :
  ∃ p' d' rqs,
    naming.poll_and_broadcast range ServerErrCode Z 0
      (NetErr (ETransport "timeout")) looping watching [] = naming.Next p' d' rqs
    ∧ naming.idx p' = 1.
Proof.
  destruct (poll_failure_fails_over range example_range_perm ServerErrCode Z 0
              (NetErr (ETransport "timeout")) looping watching [] "n1"
              (ETransport "timeout"))
    as (p' & d' & Heq & _ & _ & Hgo & _).
  - reflexivity.
  - vm_compute. reflexivity.
  - exists p', d', ([] ++ naming.sent (polls watching "n1" (NetErr (ETransport "timeout"))))%list.
    split; [exact Heq|]. apply Hgo. vm_compute. reflexivity.
Defined.

Lemma operations_keep_channels_open_witness : naming.channels_ok watching.
Proof.
  destruct (operations_keep_channels_open getenv hostname marshal range
              example_range_perm ServerErrCode fresh) as [Hnew Hops].
  destruct (Hops (Hnew cfg)) as [HWatch _].
  apply (HWatch "provider").
Defined.

Lemma serverproc_step_never_panics_witness :
  match naming.serverproc_step range ServerErrCode Z draw draw naming.CaseTick
          (Res 0 ["n1"; "n2"]) (Res 0 data1) (naming.serverproc_init 0) watching
  with
  | naming.Next p' d' _ => naming.channels_ok d' ∧ 0 ≤ naming.idx p'
  | naming.Return d' => naming.channels_ok d'
  | naming.Panicked _ => False
  | naming.NotReady => True
  end.
Proof.
  apply (serverproc_step_never_panics range example_range_perm ServerErrCode Z
           draw draw example_draw_range example_draw_range).
  - apply watching_channels_ok.
  - simpl. lia.
Defined.

Lemma Watch_after_Unwatch_is_fresh_witness :
  (naming.Watch (naming.Unwatch watching "provider") "provider").1 ≠ 0%nat.
Proof.
  refine (proj1 (proj2 (Watch_after_Unwatch_is_fresh watching "provider"
                          provider_watch _ _))).
  - apply watching_channels_ok.
  - vm_compute. reflexivity.
Defined.

Lemma delete_case_closes_unwatched_witness :
  ∃ d', naming.select naming.CaseDelete looping
          (naming.Unwatch watching "provider")
        = Some (Ok (Some (looping, d')))
      ∧ naming.delete_ch d' = [].
Proof.
  destruct (delete_case_closes_unwatched Z watching looping watching_channels_ok)
    as [_ Hunwatch].
  destruct (Hunwatch "provider" provider_watch) as (d' & Heq & _ & Hdel & _).
  - vm_compute. reflexivity.
  - reflexivity.
  - exists d'. by split.
Defined.

Lemma broadcast_signals_once_witness :
  ∃ ch, naming.chans (broadcast watching data1) !! 0%nat = Some ch
        ∧ buffered ch = 1%nat ∧ closed ch = false.
Proof.
  destruct (broadcast_signals_once range example_range_perm watching data1
              "provider" provider_watch watching_channels_ok) as [Hsignal _].
  - vm_compute. reflexivity.
  - apply (Hsignal v1).
    + vm_compute. reflexivity.
    + exists "sh1", [provider]. split; [vm_compute; reflexivity|discriminate].
Defined.

Example a_full_channel_stays_at_one :
  buffered <$> (naming.chans polled_again !! 0%nat) = Some 1%nat.
Proof. vm_compute. reflexivity. Qed.

Lemma new_contexts_are_live_witness : naming.contexts_ok watching.
Proof.
  destruct (new_contexts_are_live getenv hostname marshal range
              example_range_perm ServerErrCode Z fresh) as [Hnew Hops].
  destruct (Hops (Hnew cfg)) as [HWatch _].
  apply (HWatch "provider").
Defined.

End Scenarios.
